(** * go-sphere/telegram-bot: a shallow embedding of the dispatch pipeline

    The development follows the Go sources of the package:
    strings and slices with their bounds checks, the update data model,
    handlers as state transformers over the store the [*Update] pointer
    refers to, the middleware chain, the group-message filter, the
    command registry, broadcast delivery, retry on throttling and the
    callback-data codec.  Definitions come first, theorems second. *)

From Stdlib Require Import ZArith List String Ascii Bool Lia.
From Equations Require Import Equations.
Import ListNotations.

Local Open Scope string_scope.
Local Open Scope Z_scope.

(* ===================================================================== *)
(** * Part I: definitions                                                 *)
(* ===================================================================== *)

(** ** Go integers *)

(** Two's complement wrap-around of a 64-bit [int]. *)
Definition wrap64 (z : Z) : Z := (z + 2 ^ 63) mod 2 ^ 64 - 2 ^ 63.

Definition add64 (a b : Z) : Z := wrap64 (a + b).
Definition mul64 (a b : Z) : Z := wrap64 (a * b).

(** ** Outcomes of Go calls: a returned value or a runtime panic *)

Inductive Res (A : Type) : Type :=
| Ret (a : A)
| Panic (reason : string).
Arguments Ret {A} a.
Arguments Panic {A} reason.

Definition res_bind {A B} (r : Res A) (k : A -> Res B) : Res B :=
  match r with
  | Ret a => k a
  | Panic why => Panic why
  end.

Notation "x <- r ;; k" := (res_bind r (fun x => k))
  (at level 61, r at next level, right associativity).
Notation "' pat <- r ;; k" := (res_bind r (fun x => match x with pat => k end))
  (at level 61, pat pattern, r at next level, right associativity).

Definition slice_panic : string := "slice bounds out of range".
Definition nil_panic : string := "invalid memory address or nil pointer dereference".

(** ** Go strings: byte sequences, checked slicing, package [strings] *)

Module GoStrings.

Definition len (s : string) : Z := Z.of_nat (String.length s).

(** [s[lo:hi]]: panics unless [0 <= lo <= hi <= len(s)]. *)
Definition slice (s : string) (lo hi : Z) : Res string :=
  if (0 <=? lo) && (lo <=? hi) && (hi <=? len s)
  then Ret (substring (Z.to_nat lo) (Z.to_nat (hi - lo)) s)
  else Panic slice_panic.

(** [s[:hi]] and [s[lo:]]. *)
Definition slice_to (s : string) (hi : Z) : Res string := slice s 0 hi.
Definition slice_from (s : string) (lo : Z) : Res string := slice s lo (len s).

(** [strings.HasPrefix(s, p)]. *)
Definition HasPrefix (s p : string) : bool := String.prefix p s.

(** [strings.HasSuffix(s, suffix)]:
    [len(s) >= len(suffix) && s[len(s)-len(suffix):] == suffix]. *)
Definition HasSuffix (s suffix : string) : bool :=
  let n := String.length s in
  let m := String.length suffix in
  (m <=? n)%nat && String.eqb (substring (n - m) m s) suffix.

(** [strings.TrimPrefix(s, p)]: one leading occurrence is removed. *)
Definition TrimPrefix (s p : string) : string :=
  if HasPrefix s p
  then substring (String.length p) (String.length s - String.length p) s
  else s.

(** [strings.Index(s, sep)]: byte offset of the first occurrence. *)
Fixpoint Index (s sep : string) : option nat :=
  if String.prefix sep s then Some O
  else match s with
       | EmptyString => None
       | String _ s' => option_map S (Index s' sep)
       end.

(** [strings.ReplaceAll(s, old, new)] for a non-empty [old]: the
    non-overlapping occurrences are replaced from left to right.  [skip]
    counts the bytes of an occurrence still to be dropped. *)
Fixpoint replace_from (old new : string) (skip : nat) (s : string) : string :=
  match s with
  | EmptyString => EmptyString
  | String c s' =>
      match skip with
      | S k => replace_from old new k s'
      | O => if String.prefix old s
             then new ++ replace_from old new (String.length old - 1) s'
             else String c (replace_from old new O s')
      end
  end.

Definition ReplaceAll (s old new : string) : string :=
  match old with
  | EmptyString => s (* only reached with new = "" here: nothing to remove *)
  | _ => replace_from old new O s
  end.

(** [strings.SplitN(s, sep, n)] for a non-empty [sep] and [n > 0]: at most
    [n] pieces, the last one holding the unsplit rest.  [k] is [n - 1]. *)
Fixpoint genSplit (s sep : string) (k : nat) : list string :=
  match k with
  | O => [s]
  | S k' =>
      match Index s sep with
      | None => [s]
      | Some m =>
          substring 0 m s
          :: genSplit (substring (m + String.length sep)
                                 (String.length s - (m + String.length sep)) s)
                      sep k'
      end
  end.

Definition SplitN (s sep : string) (n : nat) : list string :=
  match n with
  | O => []
  | S k => genSplit s sep k
  end.

End GoStrings.

(** ** The update data model (package [models] of the bot client) *)

Record User : Type := mkUser {
  ID : Z;             (* int64 *)
  Username : string
}.

(** An entity marks [Length] units of the text from [Offset]; [EUser] is the
    [*User] of a [text_mention], nil otherwise. *)
Record MessageEntity : Type := mkEntity {
  Type_ : string;
  Offset : Z;
  Length : Z;
  EUser : option User
}.

Definition MessageEntityTypeMention : string := "mention".
Definition MessageEntityTypeTextMention : string := "text_mention".
Definition MessageEntityTypeBotCommand : string := "bot_command".

Definition ChatTypeGroup : string := "group".
Definition ChatTypeSupergroup : string := "supergroup".
Definition ChatTypeChannel : string := "channel".
Definition ChatTypePrivate : string := "private".

Record Chat : Type := mkChat {
  ChatID : Z;
  ChatType : string
}.

(** The message a message replies to; only its sender is read. *)
Record RepliedMessage : Type := mkReplied {
  RFrom : option User
}.

(** Slices keep Go's distinction between nil and empty: [None] is nil. *)
Record Message : Type := mkMessage {
  MessageID : Z;
  From : option User;
  MChat : Chat;
  ReplyToMessage : option RepliedMessage;
  Text : string;
  Entities : option (list MessageEntity);
  Caption : string;
  CaptionEntities : option (list MessageEntity)
}.

(** [CbMessage] is [CallbackQuery.Message.Message], nil when the origin
    message is inaccessible. *)
Record CallbackQuery : Type := mkCallback {
  CallbackID : string;
  CbFrom : User;
  CbMessage : option Message;
  Data : string
}.

Record Update : Type := mkUpdate {
  UMessage : option Message;
  UCallbackQuery : option CallbackQuery
}.

Definition setText (t : string) (m : Message) : Message :=
  mkMessage (MessageID m) (From m) (MChat m) (ReplyToMessage m)
            t (Entities m) (Caption m) (CaptionEntities m).

(** ** checkMention (the closure of NewGroupMessageFilterMiddleware) *)

Import GoStrings.

(** [text[:Offset] + mid + text[Offset+Length:]] on the live [text]. *)
Definition splice (text : string) (lo hi : Z) (mid : string) : Res string :=
  a <- slice_to text lo ;;
  b <- slice_from text hi ;;
  Ret (a ++ mid ++ b)%string.

(** One iteration of the [range entities] loop; the accumulator is the
    pair of the local variables [text] and [isMention]. *)
Definition checkMention_body (id : Z) (username : string) (trimMention : bool)
  (acc : string * bool) (entity : MessageEntity) : Res (string * bool) :=
  let '(text, isMention) := acc in
  let hi := add64 (Offset entity) (Length entity) in
  entityStr <- slice text (Offset entity) hi ;;
  if String.eqb (Type_ entity) MessageEntityTypeMention then
    if String.eqb entityStr ("@" ++ username) then
      if trimMention
      then (text' <- splice text (Offset entity) hi "" ;; Ret (text', true))
      else Ret (text, true)
    else Ret (text, isMention)
  else if String.eqb (Type_ entity) MessageEntityTypeTextMention then
    match EUser entity with
    | None => Panic nil_panic
    | Some u =>
        if Z.eqb (ID u) id then
          if trimMention
          then (text' <- splice text (Offset entity) hi "" ;; Ret (text', true))
          else Ret (text, true)
        else Ret (text, isMention)
    end
  else if String.eqb (Type_ entity) MessageEntityTypeBotCommand then
    if HasSuffix entityStr ("@" ++ username) then
      if trimMention
      then (text' <- splice text (Offset entity) hi
                       (ReplaceAll entityStr ("@" ++ username) "") ;;
            Ret (text', true))
      else Ret (text, true)
    else Ret (text, isMention)
  else Ret (text, isMention).

Fixpoint checkMention_loop (id : Z) (username : string) (trimMention : bool)
  (entities : list MessageEntity) (acc : string * bool) : Res (string * bool) :=
  match entities with
  | [] => Ret acc
  | entity :: rest =>
      acc' <- checkMention_body id username trimMention acc entity ;;
      checkMention_loop id username trimMention rest acc'
  end.

Definition checkMention (text : string) (entities : list MessageEntity)
  (id : Z) (username : string) (trimMention : bool) : Res (string * bool) :=
  checkMention_loop id username trimMention entities (text, false).

(** ** Errors *)

(** Go error values as the package tells them apart: a throttling error of
    the client carrying [RetryAfter] seconds, any other error, and an error
    wrapping another one ([Unwrap]). *)
Inductive error : Type :=
| ErrPlain (msg : string)
| ErrTooManyRequests (msg : string) (retryAfter : Z)
| ErrWrapped (msg : string) (inner : error).

(** [errors.As(err, &tooManyRequestsError)]: the first throttling error
    of the chain, if any; the result is its [RetryAfter]. *)
Fixpoint errors_As_TooManyRequests (err : error) : option Z :=
  match err with
  | ErrPlain _ => None
  | ErrTooManyRequests _ retryAfter => Some retryAfter
  | ErrWrapped _ inner => errors_As_TooManyRequests inner
  end.

(** [err.Error()], up to the retry-after suffix the client appends to the
    message of a throttling error. *)
Fixpoint Error (err : error) : string :=
  match err with
  | ErrPlain msg => msg
  | ErrTooManyRequests msg _ => msg
  | ErrWrapped msg inner => (msg ++ ": " ++ Error inner)%string
  end.

(** ** Handlers, the store behind [*Update], and the middleware chain *)

(** What a run leaves behind for an observer: structured log lines and the
    entry and exit marks of instrumented handlers. *)
Inductive Event : Type :=
| Slog (level msg key value : string)
| Enter (name : string)
| Exit (name : string).

(** The variables [user] and [ts] captured by the closures of
    NewGroupMessageFilterMiddleware: the cached bot identity and the time it
    was fetched (nanoseconds). *)
Record BotInfoCache : Type := mkCache {
  user : option User;
  ts : Z
}.

(** Every handler of one dispatch receives the same [*Update]; the store
    holds the object it points to, the observable events so far, the
    variables the filter's closures share, and the state of the outside
    world (clock, platform). *)
Record Store {World : Type} : Type := mkStore {
  update : Update;
  events : list Event;
  cache : BotInfoCache;
  world : World
}.
Arguments Store World : clear implicits.
Arguments mkStore {World} update events cache world.

Section Handlers.
Context {World : Type}.

Definition emit (ev : Event) (st : Store World) : Store World :=
  mkStore (update st) (events st ++ [ev]) (cache st) (world st).

Definition setUpdate (u : Update) (st : Store World) : Store World :=
  mkStore u (events st) (cache st) (world st).

Definition setCache (c : BotInfoCache) (st : Store World) : Store World :=
  mkStore (update st) (events st) c (world st).

Definition setWorld (w : World) (st : Store World) : Store World :=
  mkStore (update st) (events st) (cache st) w.

(** [HandlerFunc = func(ctx, *Update) error]: [None] is a nil error. *)
Definition HandlerFunc : Type :=
  Store World -> Res (option error) * Store World.

Definition MiddlewareFunc : Type := HandlerFunc -> HandlerFunc.

(** [ErrorHandlerFunc = func(ctx, *bot.Bot, *Update, err)]. *)
Definition ErrorHandlerFunc : Type :=
  error -> Store World -> Res unit * Store World.

(** [bot.HandlerFunc = func(ctx, *bot.Bot, *models.Update)]. *)
Definition BotHandlerFunc : Type := Store World -> Res unit * Store World.

(** The loop [for i := len(middleware) - 1; i >= 0; i-- { handler =
    middleware[i](handler) }], with [k = i + 1] iterations left. *)
Fixpoint wrap (middleware : list MiddlewareFunc) (k : nat)
  (handler : HandlerFunc) : HandlerFunc :=
  match k with
  | O => handler
  | S i => wrap middleware i (nth i middleware (fun next => next) handler)
  end.

(** [e] is [None] for a nil error handler. *)
Definition WithMiddleware (h : HandlerFunc) (e : option ErrorHandlerFunc)
  (middleware : list MiddlewareFunc) : BotHandlerFunc :=
  let handler := wrap middleware (List.length middleware) h in
  fun st =>
    match handler st with
    | (Panic why, st') => (Panic why, st')
    | (Ret None, st') => (Ret tt, st')
    | (Ret (Some err), st') =>
        match e with
        | Some e => e err st'
        | None => (Ret tt, st')
        end
    end.

(** [NewRecoveryMiddleware]: a panic below is recovered and logged. *)
Definition NewRecoveryMiddleware (next : BotHandlerFunc) : BotHandlerFunc :=
  fun st =>
    match next st with
    | (Panic why, st') =>
        (Ret tt, emit (Slog "ERROR" "panic recovered in bot handler" "error" why) st')
    | (Ret tt, st') => (Ret tt, st')
    end.

(** *** Options *)

Record options : Type := mkOptions {
  opt_noRouteHandler : BotHandlerFunc;
  opt_errorHandler : option ErrorHandlerFunc;
  opt_middlewares : list MiddlewareFunc
}.

Definition Option_ : Type := options -> options.

(** The default no-route handler logs what it received. *)
Definition defaultNoRouteHandler : BotHandlerFunc :=
  fun st =>
    let st1 := match UMessage (update st) with
               | Some m => emit (Slog "INFO" "receive message" "update" (Text m)) st
               | None => st
               end in
    let st2 := match UCallbackQuery (update st1) with
               | Some q => emit (Slog "INFO" "receive callback query" "update" (Data q)) st1
               | None => st1
               end in
    (Ret tt, st2).

(** The default error handler: [slog.Error("receive error",
    slog.String("update", update.Message.Text))].  The argument
    [update.Message.Text] is evaluated first, through the [Message]
    pointer. *)
Definition defaultErrorHandler : ErrorHandlerFunc :=
  fun _ st =>
    match UMessage (update st) with
    | None => (Panic nil_panic, st)
    | Some m => (Ret tt, emit (Slog "ERROR" "receive error" "update" (Text m)) st)
    end.

Definition newOptions (opts : list Option_) : options :=
  let defaults := mkOptions defaultNoRouteHandler (Some defaultErrorHandler) [] in
  fold_left (fun o opt => opt o) opts defaults.

Definition WithErrorHandler (fn : option ErrorHandlerFunc) : Option_ :=
  fun o => mkOptions (opt_noRouteHandler o) fn (opt_middlewares o).

Definition WithDefaultHandler (fn : BotHandlerFunc) : Option_ :=
  fun o => mkOptions fn (opt_errorHandler o) (opt_middlewares o).

Definition AppendMiddlewares (middlewares : list MiddlewareFunc) : Option_ :=
  fun o => mkOptions (opt_noRouteHandler o) (opt_errorHandler o)
                     (opt_middlewares o ++ middlewares).

(** *** The command and callback registry *)

Inductive HandlerType : Type :=
| HandlerTypeMessageText
| HandlerTypeCallbackQueryData.

Inductive MatchType : Type :=
| MatchTypeExact
| MatchTypePrefix
| MatchTypeContains.

(** One entry of the client's handler table. *)
Record handler : Type := mkHandler {
  handlerType : HandlerType;
  pattern : string;
  matchType : MatchType;
  fn : BotHandlerFunc
}.

(** Modelled from the spec: the matching rule of the bot client for a
    registered entry is not part of the sources.  The text of the message
    (or the data of the callback query) is compared with the pattern as the
    match type says; [MatchTypePrefix], the one this package registers
    with, is the prefix rule of the specification's routes. *)
Definition handler_match (h : handler) (u : Update) : bool :=
  let data :=
    match handlerType h with
    | HandlerTypeMessageText => option_map Text (UMessage u)
    | HandlerTypeCallbackQueryData => option_map Data (UCallbackQuery u)
    end in
  match data with
  | None => false
  | Some data =>
      match matchType h with
      | MatchTypeExact => String.eqb data (pattern h)
      | MatchTypePrefix => HasPrefix data (pattern h)
      | MatchTypeContains =>
          match Index data (pattern h) with Some _ => true | None => false end
      end
  end.

Record Bot : Type := mkBot {
  middlewares : list MiddlewareFunc;
  noRouteHandler : BotHandlerFunc;
  errorHandler : option ErrorHandlerFunc;
  handlers : list handler
}.

Definition RegisterHandler (b : Bot) (ty : HandlerType) (pat : string)
  (mt : MatchType) (f : BotHandlerFunc) : Bot :=
  mkBot (middlewares b) (noRouteHandler b) (errorHandler b)
        (handlers b ++ [mkHandler ty pat mt f]).

(** Modelled from the spec: the client hands an update to the first
    matching entry, and to the no-route handler when none matches. *)
Definition findHandler (b : Bot) (u : Update) : BotHandlerFunc :=
  match find (fun h => handler_match h u) (handlers b) with
  | Some h => fn h
  | None => noRouteHandler b
  end.

Definition appendMiddlewares (b : Bot) (mws : list MiddlewareFunc)
  : list MiddlewareFunc :=
  middlewares b ++ mws.

Definition BindNoRoute (b : Bot) (handlerFunc : HandlerFunc)
  (mws : list MiddlewareFunc) : Bot :=
  mkBot (middlewares b)
        (WithMiddleware handlerFunc (errorHandler b) (appendMiddlewares b mws))
        (errorHandler b) (handlers b).

(** The pattern [BindCommand] stores. *)
Definition commandPattern (command : string) : string :=
  ("/" ++ TrimPrefix command "/")%string.

Definition BindCommand (b : Bot) (command : string) (handlerFunc : HandlerFunc)
  (mws : list MiddlewareFunc) : Bot :=
  let f := WithMiddleware handlerFunc (errorHandler b) (appendMiddlewares b mws) in
  let command := commandPattern command in
  RegisterHandler b HandlerTypeMessageText command MatchTypePrefix f.

Definition BindCallback (b : Bot) (route : string) (handlerFunc : HandlerFunc)
  (mws : list MiddlewareFunc) : Bot :=
  let f := WithMiddleware handlerFunc (errorHandler b) (appendMiddlewares b mws) in
  RegisterHandler b HandlerTypeCallbackQueryData (route ++ ":")%string
                  MatchTypePrefix f.

End Handlers.

(** ** NewGroupMessageFilterMiddleware *)

Section GroupMessageFilter.
Context {World : Type}.

(** The outside world of the filter: the clock ([time.Now], nanoseconds)
    and the platform call [b.GetMe(ctx)]. *)
Variable now : World -> Z.
Variable GetMe : World -> (error + User) * World.

Definition isGroupChatType (t : string) : bool :=
  String.eqb t ChatTypeGroup || String.eqb t ChatTypeSupergroup
  || String.eqb t ChatTypeChannel.

(** [getBotInfo].  A single caller runs the function given to
    [singleflight.Do] itself, so the sequential behaviour is that of the
    function body. *)
Definition getBotInfo (infoExpire : Z) (st : Store World)
  : (error + (Z * string)) * Store World :=
  let fresh :=
    match user (cache st) with
    | Some u => if now (world st) - ts (cache st) <? infoExpire
                then Some u else None
    | None => None
    end in
  match fresh with
  | Some u => (inr (ID u, Username u), st)
  | None =>
      match GetMe (world st) with
      | (inl err, w) => (inl err, setWorld w st)
      | (inr u, w) =>
          (inr (ID u, Username u), setCache (mkCache (Some u) (now w)) (setWorld w st))
      end
  end.

(** [update.Message.Text = text] through the shared pointer. *)
Definition writeText (text : string) (st : Store World) : Res (Store World) :=
  match UMessage (update st) with
  | None => Panic nil_panic
  | Some m =>
      Ret (setUpdate (mkUpdate (Some (setText text m)) (UCallbackQuery (update st))) st)
  end.

(** The block scanning [Message.Text] (lines 178-182 of the middleware):
    returns the new value of [isMention]. *)
Definition scanText (id : Z) (username : string) (trimMention : bool)
  (isMention : bool) (st : Store World) : Res bool * Store World :=
  match UMessage (update st) with
  | None => (Panic nil_panic, st)
  | Some m =>
      match Entities m with
      | Some entities =>
          if negb (String.eqb (Text m) "") then
            match checkMention (Text m) entities id username trimMention with
            | Panic why => (Panic why, st)
            | Ret (text, mention) =>
                match writeText text st with
                | Panic why => (Panic why, st)
                | Ret st' => (Ret (mention || isMention), st')
                end
            end
          else (Ret isMention, st)
      | None => (Ret isMention, st)
      end
  end.

(** The block scanning [Message.Caption] (lines 185-189). *)
Definition scanCaption (id : Z) (username : string) (trimMention : bool)
  (isMention : bool) (st : Store World) : Res bool * Store World :=
  match UMessage (update st) with
  | None => (Panic nil_panic, st)
  | Some m =>
      if negb isMention then
        match CaptionEntities m with
        | Some entities =>
            if negb (String.eqb (Caption m) "") then
              match checkMention (Caption m) entities id username trimMention with
              | Panic why => (Panic why, st)
              | Ret (text, mention) =>
                  match writeText text st with
                  | Panic why => (Panic why, st)
                  | Ret st' => (Ret (mention || isMention), st')
                  end
              end
            else (Ret isMention, st)
        | None => (Ret isMention, st)
        end
      else (Ret isMention, st)
  end.

(** [ReplyToMessage != nil && ReplyToMessage.From.ID == id]. *)
Definition repliesToBot (id : Z) (m : Message) : Res bool :=
  match ReplyToMessage m with
  | None => Ret false
  | Some r =>
      match RFrom r with
      | None => Panic nil_panic
      | Some u => Ret (Z.eqb (ID u) id)
      end
  end.

Definition NewGroupMessageFilterMiddleware (trimMention : bool) (infoExpire : Z)
  : @MiddlewareFunc World :=
  fun next st =>
    match UMessage (update st) with
    | None => next st
    | Some m =>
        if negb (isGroupChatType (ChatType (MChat m))) then next st
        else
          match getBotInfo infoExpire st with
          | (inl err, st1) =>
              (Ret (Some err),
               emit (Slog "ERROR" "get bot info error" "error" (Error err)) st1)
          | (inr (id, username), st1) =>
              match repliesToBot id m with
              | Panic why => (Panic why, st1)
              | Ret true => next st1
              | Ret false =>
                  match scanText id username trimMention false st1 with
                  | (Panic why, st2) => (Panic why, st2)
                  | (Ret isMention, st2) =>
                      match scanCaption id username trimMention isMention st2 with
                      | (Panic why, st3) => (Panic why, st3)
                      | (Ret true, st3) => next st3
                      | (Ret false, st3) => (Ret None, st3)
                      end
                  end
              end
          end
    end.

End GroupMessageFilter.

(** ** RetryOnTooManyRequestsError *)

Section Retry.
Context {S : Type}.

(** [send func() error]: a closure over its own state [S]. *)
Definition Op : Type := S -> option error * S.

(** What an observer of a retry sees: invocations of [send] and sleeps. *)
Inductive RetryEvent : Type :=
| Invoke
| Sleep (d : Z).

Definition time_Second : Z := 1000000000.

(** [time.Duration(tooManyRequestsError.RetryAfter) * time.Second]. *)
Definition sleepDuration (retryAfter : Z) : Z := mul64 retryAfter time_Second.

Definition maxRetriesExceeded : error := ErrPlain "max retries exceeded".

Definition after (evs : list RetryEvent)
  (r : option error * S * list RetryEvent) : option error * S * list RetryEvent :=
  let '(res, s, tr) := r in (res, s, (evs ++ tr)%list).

Equations? RetryOnTooManyRequestsError (maxRetries : Z) (send : Op) (s : S)
  : option error * S * list RetryEvent
  by wf (Z.to_nat (maxRetries + 1)) lt :=
RetryOnTooManyRequestsError maxRetries send s with Z_lt_dec maxRetries 0 => {
  | left _ := (Some maxRetriesExceeded, s, []);
  | right _ with send s => {
      | (None, s') := (None, s', [Invoke]);
      | (Some err, s') with errors_As_TooManyRequests err => {
          | Some retryAfter :=
              after [Invoke; Sleep (sleepDuration retryAfter)]
                    (RetryOnTooManyRequestsError (maxRetries - 1) send s');
          | None := (Some err, s', [Invoke]) } } }.
Proof. lia. Qed.

End Retry.

(** ** BroadcastMessage *)

Section Broadcast.
Context {T World : Type}.

(** The collaborators of a broadcast: the context's error ([ctx.Err()],
    nil until cancelled), the rate limiter's admission wait and [send]. *)
Variable ctxErr : World -> option error.
Variable limiterWait : World -> option error * World.
Variable send : T -> World -> option error * World.

Record broadcastOptions : Type := mkBroadcastOptions {
  progress : option (Z -> Z -> Z -> World -> World);
  terminalOnSendError : bool
}.

Definition BroadcastOption : Type := broadcastOptions -> broadcastOptions.

Definition newBroadcastOptions (opts : list BroadcastOption) : broadcastOptions :=
  fold_left (fun o opt => opt o) opts (mkBroadcastOptions None false).

Definition WithProgress (p : Z -> Z -> Z -> World -> World) : BroadcastOption :=
  fun o => mkBroadcastOptions (Some p) (terminalOnSendError o).

Definition WithTerminalOnSendError (b : bool) : BroadcastOption :=
  fun o => mkBroadcastOptions (progress o) b.

(** The calls a broadcast makes, in order: progress reports and sends
    (with their results). *)
Inductive BroadcastEvent : Type :=
| Report (current errors total : Z)
| Sent (index : Z) (target : T) (result : option error).

(** [if opts.progress != nil { opts.progress(i, errCount, total) }]. *)
Definition report (opts : broadcastOptions) (i errCount total : Z) (w : World)
  : World * list BroadcastEvent :=
  match progress opts with
  | Some p => (p i errCount total w, [Report i errCount total])
  | None => (w, [])
  end.

(** The [for i, d := range data] loop followed by the final report; [i]
    and [errCount] are the loop's variables on entry. *)
Fixpoint broadcast_loop (opts : broadcastOptions) (total : Z) (data : list T)
  (i errCount : Z) (w : World) : option error * World * list BroadcastEvent :=
  match data with
  | [] =>
      let '(w', evs) := report opts total errCount total w in
      (None, w', evs)
  | d :: rest =>
      match ctxErr w with
      | Some err => (Some err, w, [])
      | None =>
          let '(w1, evs) := report opts i errCount total w in
          match limiterWait w1 with
          | (Some err, w2) => (Some err, w2, evs)
          | (None, w2) =>
              match send d w2 with
              | (Some err, w3) =>
                  if terminalOnSendError opts
                  then (Some err, w3, (evs ++ [Sent i d (Some err)])%list)
                  else
                    let '(res, w', tr) :=
                      broadcast_loop opts total rest (i + 1) (errCount + 1) w3 in
                    (res, w', (evs ++ Sent i d (Some err) :: tr)%list)
              | (None, w3) =>
                  let '(res, w', tr) :=
                    broadcast_loop opts total rest (i + 1) errCount w3 in
                  (res, w', (evs ++ Sent i d None :: tr)%list)
              end
          end
      end
  end.

Definition BroadcastMessage (data : list T) (options : list BroadcastOption) (w : World)
  : option error * World * list BroadcastEvent :=
  let opts := newBroadcastOptions options in
  let total := Z.of_nat (List.length data) in
  broadcast_loop opts total data 0 0 w.

End Broadcast.

(** ** Callback data: MarshalData and UnmarshalData *)

Section Encoding.
Context {T : Type}.

(** The serializer ([jsoncompressor.Marshal] and [Unmarshal]) is a
    collaborator of the package. *)
Variable Marshal : T -> string * option error.
Variable Unmarshal : string -> error + T.

Definition MarshalData (route : string) (data : T) : string :=
  let '(b, _) := Marshal data in
  (route ++ ":" ++ b)%string.

Definition UnmarshalData (data : string) : string * option T * option error :=
  match SplitN data ":" 2 with
  | [route; payload] =>
      match Unmarshal payload with
      | inl err => (route, None, Some err)
      | inr v => (route, Some v, None)
      end
  | _ => ("", None, Some (ErrPlain "invalid data format"))
  end.

End Encoding.

(** ** The mention scan as the specification words it

    The specification's reading of the scan, kept apart from the code's
    [checkMention] for comparison: every entity is evaluated against the
    original string, and the matched substrings are excised only after the
    scan of the field has completed. *)

Definition matches_original (text : string) (id : Z) (username : string)
  (entity : MessageEntity) : Res bool :=
  entityStr <- slice text (Offset entity) (add64 (Offset entity) (Length entity)) ;;
  if String.eqb (Type_ entity) MessageEntityTypeMention then
    Ret (String.eqb entityStr ("@" ++ username))
  else if String.eqb (Type_ entity) MessageEntityTypeTextMention then
    match EUser entity with
    | None => Panic nil_panic
    | Some u => Ret (Z.eqb (ID u) id)
    end
  else if String.eqb (Type_ entity) MessageEntityTypeBotCommand then
    Ret (HasSuffix entityStr ("@" ++ username))
  else Ret false.

(** The entities that address the bot, judged on the original text. *)
Fixpoint scan_original (text : string) (id : Z) (username : string)
  (entities : list MessageEntity) : Res (list MessageEntity) :=
  match entities with
  | [] => Ret []
  | entity :: rest =>
      hit <- matches_original text id username entity ;;
      hits <- scan_original text id username rest ;;
      Ret (if hit then entity :: hits else hits)
  end.

(** Matched entities ordered by decreasing offset, so that excising one
    leaves the offsets of those still to come untouched. *)
Fixpoint insert_desc (e : MessageEntity) (l : list MessageEntity) : list MessageEntity :=
  match l with
  | [] => [e]
  | x :: r => if Offset x <=? Offset e then e :: x :: r else x :: insert_desc e r
  end.

Definition sort_desc (l : list MessageEntity) : list MessageEntity :=
  fold_right insert_desc [] l.

(** Excision of one matched entity, located by its original offsets; a
    command keeps its name and loses the [@username] part. *)
Definition excise_original (original : string) (username : string)
  (entity : MessageEntity) (text : string) : Res string :=
  let hi := add64 (Offset entity) (Length entity) in
  entityStr <- slice original (Offset entity) hi ;;
  splice text (Offset entity) hi
         (if String.eqb (Type_ entity) MessageEntityTypeBotCommand
          then ReplaceAll entityStr ("@" ++ username) "" else "").

Fixpoint excise_all (original : string) (username : string)
  (hits : list MessageEntity) (text : string) : Res string :=
  match hits with
  | [] => Ret text
  | e :: r =>
      text' <- excise_original original username e text ;;
      excise_all original username r text'
  end.

Definition checkMention_per_spec (text : string) (entities : list MessageEntity)
  (id : Z) (username : string) (trimMention : bool) : Res (string * bool) :=
  hits <- scan_original text id username entities ;;
  text' <- (if trimMention
            then excise_all text username (sort_desc hits) text
            else Ret text) ;;
  Ret (text', match hits with [] => false | _ => true end).

(** ** Concrete inputs used by the examples *)

Definition mention (off l : Z) : MessageEntity :=
  mkEntity MessageEntityTypeMention off l None.

(** A run of the filter on a concrete group message: the text mentions
    someone else, the caption mentions the bot. *)
Definition demo_now (_ : unit) : Z := 0.
Definition demo_GetMe (w : unit) : (error + User) * unit := (inr (mkUser 7 "bot"), w).
Definition demo_message : Message :=
  mkMessage 1 None (mkChat 5 ChatTypeGroup) None
            "hi @amy" (Some [mention 3 4])
            "pic @bot" (Some [mention 4 4]).
Definition demo_store : Store unit :=
  mkStore (mkUpdate (Some demo_message) None) [] (mkCache None 0) tt.
Definition demo_next : @HandlerFunc unit := fun st => (Ret None, st).


(** Instrumented handlers: a middleware that marks its entry, calls
    downstream and marks its exit, and a terminal handler that marks both
    and returns [result]. *)
Definition observe {World : Type} (name : string) : @MiddlewareFunc World :=
  fun next st =>
    match next (emit (Enter name) st) with
    | (Ret r, st') => (Ret r, emit (Exit name) st')
    | (Panic why, st') => (Panic why, st')
    end.

Definition observed_terminal {World : Type} (name : string) (result : option error)
  : @HandlerFunc World :=
  fun st => (Ret result, emit (Exit name) (emit (Enter name) st)).

(** A callback-only update and a handler that fails on it. *)
Definition demo_callback_store : Store unit :=
  mkStore (mkUpdate None (Some (mkCallback "q1" (mkUser 3 "amy") None "menu:1")))
          [] (mkCache None 0) tt.
Definition demo_failing : @HandlerFunc unit :=
  fun st => (Ret (Some (ErrPlain "boom")), st).

(** The token of a command message in the specification's sense: the text
    up to its first space, the whole text when there is none. *)
Definition first_token (text : string) : string :=
  match Index text " " with
  | Some n => substring 0 n text
  | None => text
  end.

Definition text_update (text : string) : Update :=
  mkUpdate (Some (mkMessage 1 None (mkChat 5 ChatTypePrivate) None text None "" None))
           None.

Definition demo_bot : @Bot unit := mkBot [] defaultNoRouteHandler None [].

(** ** Reading a broadcast or retry trace *)

(** The sends of a trace, as (index, target) pairs in call order. *)
Fixpoint sends {T : Type} (tr : list (@BroadcastEvent T)) : list (Z * T) :=
  match tr with
  | [] => []
  | Sent i d _ :: rest => (i, d) :: sends rest
  | Report _ _ _ :: rest => sends rest
  end.

(** The number of sends of a trace that returned an error. *)
Fixpoint failures {T : Type} (tr : list (@BroadcastEvent T)) : Z :=
  match tr with
  | [] => 0
  | Sent _ _ (Some _) :: rest => 1 + failures rest
  | _ :: rest => failures rest
  end.


(** The invocations of [send] in a retry trace. *)
Definition invocations (tr : list RetryEvent) : nat :=
  List.length (filter (fun ev => match ev with Invoke => true | Sleep _ => false end) tr).

(** An operation that fails twice with a zero-wait throttling error and
    then succeeds; its state counts the calls made. *)
Definition fails_twice : @Op nat :=
  fun n => (if (n <? 2)%nat then Some (ErrTooManyRequests "Too Many Requests" 0) else None,
            Datatypes.S n).

(** A broadcast world that counts the sends made, never cancels and never
    throttles; the send of index 1 fails. *)
Definition demo_ctxErr (_ : nat) : option error := None.
Definition demo_limiterWait (w : nat) : option error * nat := (None, w).
Definition demo_send (_ : string) (w : nat) : option error * nat :=
  (if (w =? 1)%nat then Some (ErrPlain "blocked by user") else None, Datatypes.S w).
Definition demo_progress (_ _ _ : Z) (w : nat) : nat := w.

(** ** The shape of a broadcast run

    The traces a broadcast can leave, read off the loop: a complete run
    ends with the final report; a run aborts before a report (context
    cancelled), after a report (limiter refused) or after a failed send
    (with [terminalOnSendError]). *)

Section BroadcastShape.
Context {T World : Type}.
Variable ctxErr : World -> option error.
Variable limiterWait : World -> option error * World.
Variable send : T -> World -> option error * World.
Variable opts : @broadcastOptions World.
Variable total : Z.

(** What the progress sink receives for one report. *)
Definition reported (i errCount : Z) : list (@BroadcastEvent T) :=
  match progress opts with
  | Some _ => [Report i errCount total]
  | None => []
  end.

Inductive run_shape
  : Z -> Z -> list T -> option error -> list (@BroadcastEvent T) -> Prop :=
| shape_complete i e :
    run_shape i e [] None (reported total e)
| shape_cancelled i e d rest err w :
    ctxErr w = Some err ->
    run_shape i e (d :: rest) (Some err) []
| shape_limited i e d rest err w :
    fst (limiterWait w) = Some err ->
    run_shape i e (d :: rest) (Some err) (reported i e)
| shape_stopped i e d rest err w :
    terminalOnSendError opts = true ->
    fst (send d w) = Some err ->
    run_shape i e (d :: rest) (Some err) (reported i e ++ [Sent i d (Some err)])
| shape_failed i e d rest err w res tr :
    terminalOnSendError opts = false ->
    fst (send d w) = Some err ->
    run_shape (i + 1) (e + 1) rest res tr ->
    run_shape i e (d :: rest) res (reported i e ++ Sent i d (Some err) :: tr)
| shape_sent i e d rest w res tr :
    fst (send d w) = None ->
    run_shape (i + 1) e rest res tr ->
    run_shape i e (d :: rest) res (reported i e ++ Sent i d None :: tr).

End BroadcastShape.

(** ** Reading the callback-data claims *)

(** The route contains a [":"] byte. *)
Fixpoint has_colon (s : string) : bool :=
  match s with
  | EmptyString => false
  | String c s' => Ascii.eqb c ":" || has_colon s'
  end.

(** A value the serializer can carry: marshalling succeeds and
    unmarshalling the bytes gives the value back. *)
Definition serializable {T : Type} (Marshal : T -> string * option error)
  (Unmarshal : string -> error + T) (v : T) : Prop :=
  exists b, Marshal v = (b, None) /\ Unmarshal b = inr v.

(** A serializer for examples: the payload is the string itself. *)
Definition demo_Marshal (v : string) : string * option error := (v, None).
Definition demo_Unmarshal (b : string) : error + string := inr b.

(** An operation that is throttled on every call, with a wait of one
    second; its state counts the calls. *)
Definition always_throttled : @Op nat :=
  fun n => (Some (ErrTooManyRequests "Too Many Requests" 1), Datatypes.S n).

(** A store whose identity cache was filled at time 0, a clock that reads
    10, and a platform that is down. *)
Definition demo_now10 (_ : unit) : Z := 10.
Definition demo_GetMe_down (w : unit) : (error + User) * unit :=
  (inl (ErrPlain "bad gateway"), w).
Definition demo_cached_store (m : Message) : Store unit :=
  mkStore (mkUpdate (Some m) None) [] (mkCache (Some (mkUser 7 "bot")) 0) tt.
Definition demo_reply : Message :=
  mkMessage 2 None (mkChat 5 ChatTypeSupergroup)
            (Some (mkReplied (Some (mkUser 7 "bot"))))
            "@bot thanks" (Some [mention 0 4]) "" None.
Definition demo_chatter : Message :=
  mkMessage 3 None (mkChat 5 ChatTypeGroup) None
            "hi @amy" (Some [mention 3 4]) "" None.

(** A serializer that accepts only the payload ["ok"]. *)
Definition demo_Unmarshal_strict (b : string) : error + string :=
  if String.eqb b "ok" then inr b else inl (ErrPlain "unexpected payload").

(** A middleware that answers by itself and never calls downstream. *)
Definition demo_gate : @MiddlewareFunc unit :=
  fun _ st => (Ret None, emit (Enter "gate") st).

(** ** Contexts and the value overlay ([contextWithValues]) *)

(** Values of type [any] as the package stores them: identifiers, names,
    or nil. *)
Inductive any : Type :=
| AnyNil
| AnyInt64 (z : Z)
| AnyString (s : string).

(** A context key is an [any]: a string, or a value of some other type. *)
Inductive Key : Type :=
| KeyString (s : string)
| KeyOther (tag : nat).

(** A [context.Context] through its four methods; [Done] stands for the
    identity of the channel, [Deadline] is [None] when [ok] is false, and
    [Value] answers [AnyNil] for a key it does not know. *)
Record Context : Type := mkContext {
  Deadline : option Z;
  Done : nat;
  Err : option error;
  Value : Key -> any
}.

(** A Go map with string keys as an association list; a key is looked up
    from the front, so an earlier binding stands for the one a map would
    hold.  The nil map and the empty map are both [[]]. *)
Fixpoint map_lookup {V : Type} (k : string) (m : list (string * V)) : option V :=
  match m with
  | [] => None
  | (k', v) :: rest => if String.eqb k k' then Some v else map_lookup k rest
  end.

(** [contextWithValues]: no wrapper for an empty map; otherwise a [values]
    whose [Value] consults the map for string keys that are present (even
    with a nil value) and the embedded context for everything else. *)
Definition contextWithValues (ctx : Context) (data : list (string * any)) : Context :=
  match data with
  | [] => ctx
  | _ =>
      mkContext (Deadline ctx) (Done ctx) (Err ctx)
        (fun key =>
           match key with
           | KeyString strKey =>
               match map_lookup strKey data with
               | Some v => v
               | None => Value ctx key
               end
           | KeyOther _ => Value ctx key
           end)
  end.

(** ** Auth extraction and injection (auth.go) *)

(** [AuthExtractorFunc]: the claims map and an error. *)
Definition AuthExtractorFunc : Type :=
  Context -> Update -> list (string * any) * option error.

(** Handlers with their context argument explicit: the auth middleware is
    the one place of the package that changes the context it passes on. *)
Definition CtxHandlerFunc {World : Type} : Type := Context -> @HandlerFunc World.

Definition NewAuthMiddleware {World : Type} (auth : AuthExtractorFunc)
  (next : @CtxHandlerFunc World) : @CtxHandlerFunc World :=
  fun ctx st =>
    match auth ctx (update st) with
    | (_, Some err) => (Ret (Some err), st)
    | (info, None) => next (contextWithValues ctx info) st
    end.

Definition DefaultAuthExtractor : AuthExtractorFunc :=
  fun _ update =>
    let user := match UMessage update with
                | Some m => From m
                | None => None
                end in
    let user := match UCallbackQuery update with
                | Some q => Some (CbFrom q)
                | None => user
                end in
    match user with
    | None => ([], None)
    | Some u => ([("uid", AnyInt64 (ID u)); ("subject", AnyString (Username u))], None)
    end.

(** A base context with one value of its own, and an update carrying both a
    message and a callback query from different users. *)
Definition demo_ctx : Context :=
  mkContext (Some 500) 1 None
            (fun key => match key with
                        | KeyString "trace" => AnyString "t-1"
                        | _ => AnyNil
                        end).
Definition demo_both_update : Update :=
  mkUpdate (Some (mkMessage 1 (Some (mkUser 3 "amy")) (mkChat 5 ChatTypePrivate)
                            None "hi" None "" None))
           (Some (mkCallback "q1" (mkUser 4 "bob") None "menu:1")).

(** ** Outgoing messages (message.go) and SendMessage *)

(** [Button = models.InlineKeyboardButton], the fields this package sets. *)
Record Button : Type := mkButton {
  ButtonText : string;
  ButtonCallbackData : string;
  ButtonURL : string
}.

(** [models.InputFile]: an upload (file name and bytes) or a URL or file id. *)
Inductive InputFile : Type :=
| InputFileUpload (filename : string) (data : string)
| InputFileString (data : string).


Definition NewButton {T : Type} (Marshal : T -> string * option error)
  (text route : string) (data : T) : Button :=
  mkButton text (MarshalData Marshal route data) "".

Definition NewURLButton (text url : string) : Button := mkButton text "" url.


Record SendMessageParams : Type := mkSendMessageParams {
  smChatID : Z; smText : string; smParseMode : string;
  smReplyMarkup : option (list (list Button))
}.

Record SendPhotoParams : Type := mkSendPhotoParams {
  spChatID : Z; spPhoto : option InputFile; spCaption : string;
  spParseMode : string; spReplyMarkup : option (list (list Button))
}.

Record EditMessageTextParams : Type := mkEditMessageTextParams {
  etChatID : Z; etMessageID : Z; etText : string; etParseMode : string;
  etReplyMarkup : option (list (list Button))
}.

Record EditMessageCaptionParams : Type := mkEditMessageCaptionParams {
  ecChatID : Z; ecMessageID : Z; ecCaption : string; ecParseMode : string;
  ecReplyMarkup : option (list (list Button))
}.

Record InputMediaPhoto : Type := mkInputMediaPhoto {
  impMedia : string; impCaption : string; impParseMode : string;
  impMediaAttachment : option string
}.

Record EditMessageMediaParams : Type := mkEditMessageMediaParams {
  emChatID : Z; emMessageID : Z; emMedia : InputMediaPhoto;
  emReplyMarkup : option (list (list Button))
}.

Record AnswerCallbackQueryParams : Type := mkAnswerCallbackQueryParams {
  acCallbackQueryID : string; acText : string
}.






(** The calls to the platform this package makes. *)
Inductive ApiCall : Type :=
| CallSendMessage (p : SendMessageParams)
| CallSendPhoto (p : SendPhotoParams)
| CallEditMessageText (p : EditMessageTextParams)
| CallEditMessageCaption (p : EditMessageCaptionParams)
| CallEditMessageMedia (p : EditMessageMediaParams)
| CallAnswerCallbackQuery (p : AnswerCallbackQueryParams).

Section Sending.
Context {World : Type}.

(** The platform: every call returns an error or nil and may change the
    world.  [Photo] reads the photo sizes of a received message, a field
    the update record above does not carry. *)
Variable api : ApiCall -> World -> option error * World.
Variable Photo : Message -> list string.



(** [SendErrorMessage]: both notifications are fire-and-forget, their
    results are dropped.  A nil [update] is dereferenced once [err] is known
    to be non-nil. *)
Definition SendErrorMessage (update : option Update) (err : option error) (w : World)
  : Res unit * World * list ApiCall :=
  match err with
  | None => (Ret tt, w, [])
  | Some err =>
      match update with
      | None => (Panic nil_panic, w, [])
      | Some update =>
          let '(w1, calls1) :=
            match UMessage update with
            | Some msg =>
                let c := CallSendMessage
                           (mkSendMessageParams (ChatID (MChat msg)) (Error err) "" None) in
                (snd (api c w), [c])
            | None => (w, [])
            end in
          match UCallbackQuery update with
          | Some q =>
              let c := CallAnswerCallbackQuery
                         (mkAnswerCallbackQueryParams (CallbackID q) (Error err)) in
              (Ret tt, snd (api c w1), (calls1 ++ [c])%list)
          | None => (Ret tt, w1, calls1)
          end
      end
  end.

End Sending.





(** ** Route metadata and BindRoute *)

Record MethodExtraData : Type := mkMethodExtraData {
  Command : string;
  CallbackQuery_ : string
}.

(** A missing key of a Go map reads as the zero value. *)
Definition map_get_string (raw : list (string * string)) (k : string) : string :=
  match map_lookup k raw with
  | Some v => v
  | None => ""
  end.

Definition NewMethodExtraData (raw : list (string * string)) : MethodExtraData :=
  mkMethodExtraData (map_get_string raw "command") (map_get_string raw "callback_query").

Section Routes.
Context {World : Type}.

(** Calling a nil function value panics. *)
Definition nilHandlerFunc : @HandlerFunc World := fun st => (Panic nil_panic, st).

(** [RouteMap = map[string]func(ctx, *Update) error]; [route[operation]] is
    the nil function for an operation the map does not hold. *)
Definition RouteMap : Type := list (string * @HandlerFunc World).

Definition route_get (route : RouteMap) (operation : string) : @HandlerFunc World :=
  match map_lookup operation route with
  | Some h => h
  | None => nilHandlerFunc
  end.

(** The body of the loop of [BindRoute] for one operation; [extra] returns
    a pointer, [None] when nil. *)
Definition bindOperation (route : RouteMap)
  (extra : string -> option MethodExtraData) (mws : list (@MiddlewareFunc World))
  (b : @Bot World) (operation : string) : Res (@Bot World) :=
  match extra operation with
  | None => Panic nil_panic
  | Some info =>
      let b1 := if negb (String.eqb (Command info) "")
                then BindCommand b (Command info) (route_get route operation) mws
                else b in
      let b2 := if negb (String.eqb (CallbackQuery_ info) "")
                then BindCallback b1 (CallbackQuery_ info) (route_get route operation) mws
                else b1 in
      Ret b2
  end.

Fixpoint BindRoute (b : @Bot World) (route : RouteMap)
  (extra : string -> option MethodExtraData) (operations : list string)
  (mws : list (@MiddlewareFunc World)) : Res (@Bot World) :=
  match operations with
  | [] => Ret b
  | operation :: rest =>
      b' <- bindOperation route extra mws b operation ;;
      BindRoute b' route extra rest mws
  end.

(** The patterns one operation contributes: its command, then its callback
    route. *)
Definition operation_patterns (info : MethodExtraData) : list string :=
  ((if negb (String.eqb (Command info) "") then [commandPattern (Command info)] else [])
   ++ (if negb (String.eqb (CallbackQuery_ info) "")
       then [(CallbackQuery_ info ++ ":")%string] else []))%list.

End Routes.

(** Metadata for three operations: a command, a callback, and one with
    neither key. *)
Definition demo_extra (operation : string) : option MethodExtraData :=
  Some (NewMethodExtraData
          (if String.eqb operation "Start" then [("command", "start")]
           else if String.eqb operation "Menu" then [("callback_query", "menu")]
           else [])).

(** An entity that lies inside [text] and, if it is a [text_mention],
    carries its user. *)
Definition entity_in_range (text : string) (entity : MessageEntity) : Prop :=
  0 <= Offset entity /\ 0 <= Length entity
  /\ Offset entity + Length entity <= len text
  /\ (Type_ entity = MessageEntityTypeTextMention -> EUser entity <> None).

(** A context that is already cancelled. *)
Definition demo_cancelled (_ : nat) : option error := Some (ErrPlain "context canceled").
(* ===================================================================== *)
(** * Part II: theorems                                                   *)
(* ===================================================================== *)

(** ** The mention scan *)

Ltac break_match :=
  match goal with
  | |- context [match ?x with _ => _ end] => destruct x eqn:?
  | H : context [match ?x with _ => _ end] |- _ => destruct x eqn:?
  end.

(** Without trimming, one iteration only ever raises [isMention]: it
    returns the text it was given and the verdict of the original text. *)
Lemma checkMention_body_no_trim id username text b entity :
  checkMention_body id username false (text, b) entity
  = (hit <- matches_original text id username entity ;; Ret (text, hit || b)).
Proof.
  unfold checkMention_body, matches_original, res_bind.
  repeat (break_match; try reflexivity; try discriminate).
Qed.

Lemma checkMention_loop_no_trim id username entities : forall text b,
  checkMention_loop id username false entities (text, b)
  = (hits <- scan_original text id username entities ;;
     Ret (text, match hits with [] => b | _ => true end)).
Proof.
  induction entities as [|e rest IH]; intros text b;
    cbn [checkMention_loop scan_original].
  - reflexivity.
  - rewrite checkMention_body_no_trim.
    destruct (matches_original text id username e) as [hit|why];
      cbn [res_bind]; [|reflexivity].
    rewrite IH.
    destruct (scan_original text id username rest) as [hits|why];
      cbn [res_bind]; [|reflexivity].
    destruct hit; cbn [orb]; [|reflexivity].
    destruct hits; reflexivity.
Qed.

(** With [trimMention] off the code is the specification's scan: every
    entity is judged on the original text, which is returned as it came. *)
Lemma checkMention_no_trim_per_spec text entities id username :
  checkMention text entities id username false
  = checkMention_per_spec text entities id username false.
Proof.
  unfold checkMention, checkMention_per_spec.
  rewrite checkMention_loop_no_trim.
  destruct (scan_original text id username entities); reflexivity.
Qed.

(** An iteration either sets [isMention] or leaves both variables alone. *)
Lemma checkMention_body_cases id username trim text b entity text' b' :
  checkMention_body id username trim (text, b) entity = Ret (text', b') ->
  b' = true \/ (text' = text /\ b' = b).
Proof.
  unfold checkMention_body, res_bind. intros H.
  repeat (break_match; try discriminate);
    inversion H; subst; auto.
Qed.

Lemma checkMention_loop_mention_sticks id username trim entities :
  forall text text' b',
  checkMention_loop id username trim entities (text, true) = Ret (text', b') ->
  b' = true.
Proof.
  induction entities as [|e rest IH]; intros text text' b';
    cbn [checkMention_loop].
  - intros H; inversion H; reflexivity.
  - destruct (checkMention_body id username trim (text, true) e)
      as [[t1 b1]|why] eqn:Hb; cbn [res_bind]; [|discriminate].
    destruct (checkMention_body_cases _ _ _ _ _ _ _ _ Hb) as [->|[_ ->]];
      apply IH.
Qed.

Lemma checkMention_loop_unmatched id username trim entities :
  forall text b text',
  checkMention_loop id username trim entities (text, b) = Ret (text', false) ->
  text' = text /\ b = false.
Proof.
  induction entities as [|e rest IH]; intros text b text';
    cbn [checkMention_loop].
  - intros H; inversion H; auto.
  - destruct (checkMention_body id username trim (text, b) e)
      as [[t1 b1]|why] eqn:Hb; cbn [res_bind]; [|discriminate].
    intros H.
    destruct (checkMention_body_cases _ _ _ _ _ _ _ _ Hb) as [->|[-> ->]].
    + apply checkMention_loop_mention_sticks in H. discriminate.
    + apply IH in H. exact H.
Qed.

(** A scan that finds no mention returns the string it was given, whatever
    [trimMention] says. *)
Lemma checkMention_unmatched_keeps_text text entities id username trim text' :
  checkMention text entities id username trim = Ret (text', false) ->
  text' = text.
Proof.
  unfold checkMention. intros H.
  apply checkMention_loop_unmatched in H. tauto.
Qed.

(** C1 (the code departs from the claim).  Two mentions of the bot in one
    text, [trimMention] set: both entities lie inside the original text and
    both spell ["@bot"] there, so the scan the claim describes accepts both
    and excises them afterwards.  The code slices the text the first trim
    has already shortened: on ["@bot @bot"] the offsets of the second
    entity fall outside it and the scan panics; on ["@bot @bot!!!!"] they
    select ["!!!!"], and the second mention is neither seen nor removed. *)
Theorem checkMention_second_entity_reads_trimmed_text :
  let entities := [mention 0 4; mention 5 4] in
  slice "@bot @bot" 0 4 = Ret "@bot" /\
  slice "@bot @bot" 5 9 = Ret "@bot" /\
  checkMention_per_spec "@bot @bot" entities 7 "bot" true = Ret (" ", true) /\
  checkMention "@bot @bot" entities 7 "bot" true = Panic slice_panic /\
  checkMention_per_spec "@bot @bot!!!!" entities 7 "bot" true = Ret (" !!!!", true) /\
  checkMention "@bot @bot!!!!" entities 7 "bot" true = Ret (" @bot!!!!", true) /\
  slice " @bot!!!!" 5 9 = Ret "!!!!".
Proof.
  cbv zeta. repeat split; vm_compute; reflexivity.
Qed.

(** ** The group-message filter *)

Section GroupMessageFilterFacts.
Context {World : Type}.
Variable now : World -> Z.
Variable GetMe : World -> (error + User) * World.

Lemma setText_same (m : Message) : setText (Text m) m = m.
Proof. destruct m; reflexivity. Qed.

Lemma setText_Caption t m : Caption (setText t m) = Caption m.
Proof. reflexivity. Qed.

Lemma getBotInfo_update infoExpire (st st1 : Store World) r :
  getBotInfo now GetMe infoExpire st = (r, st1) -> update st1 = update st.
Proof.
  unfold getBotInfo. intros H.
  repeat (break_match; try discriminate); inversion H; subst; reflexivity.
Qed.

Lemma writeText_same (st : Store World) m :
  UMessage (update st) = Some m ->
  writeText (Text m) st = Ret st.
Proof.
  unfold writeText. intros Hm. rewrite Hm, setText_same.
  destruct st as [[um cq] evs c w]; simpl in *. subst. reflexivity.
Qed.



(** The caption of the message in the store, if there is a message. *)
Lemma writeText_caption text (st st' : Store World) :
  writeText text st = Ret st' ->
  option_map Caption (UMessage (update st'))
  = option_map Caption (UMessage (update st))
  /\ UCallbackQuery (update st') = UCallbackQuery (update st).
Proof.
  unfold writeText. destruct (UMessage (update st)) as [m|] eqn:Hm;
    [|discriminate].
  intros H; inversion H; subst. cbn. auto.
Qed.

Lemma scanText_caption id username trim b (st st' : Store World) r :
  scanText id username trim b st = (r, st') ->
  option_map Caption (UMessage (update st'))
  = option_map Caption (UMessage (update st)).
Proof.
  unfold scanText. intros H.
  repeat (break_match; try discriminate); inversion H; subst;
    try reflexivity;
    try match goal with
    | Hw : writeText _ ?s = Ret _, Hm : UMessage (update ?s) = Some _ |- _ =>
        rewrite <- Hm; eapply writeText_caption; exact Hw
    end;
    congruence.
Qed.

Lemma scanCaption_caption id username trim b (st st' : Store World) r :
  scanCaption id username trim b st = (r, st') ->
  option_map Caption (UMessage (update st'))
  = option_map Caption (UMessage (update st)).
Proof.
  unfold scanCaption. intros H.
  repeat (break_match; try discriminate); inversion H; subst;
    try reflexivity;
    try match goal with
    | Hw : writeText _ ?s = Ret _, Hm : UMessage (update ?s) = Some _ |- _ =>
        rewrite <- Hm; eapply writeText_caption; exact Hw
    end;
    congruence.
Qed.

(** On every path the filter either returns by itself or hands a store to
    the downstream handler, and in that store the caption is the one it
    received: the filter never writes [Message.Caption]. *)
Lemma filter_never_writes_caption trim infoExpire (next : @HandlerFunc World)
  (st : Store World) :
  exists st',
    option_map Caption (UMessage (update st'))
    = option_map Caption (UMessage (update st))
    /\ (NewGroupMessageFilterMiddleware now GetMe trim infoExpire next st = next st'
        \/ exists r, NewGroupMessageFilterMiddleware now GetMe trim infoExpire next st
                     = (r, st')).
Proof.
  unfold NewGroupMessageFilterMiddleware.
  destruct (UMessage (update st)) as [m|] eqn:Hm;
    [|exists st; rewrite Hm; auto].
  destruct (isGroupChatType (ChatType (MChat m))); cbn [negb];
    [|exists st; rewrite Hm; auto].
  destruct (getBotInfo now GetMe infoExpire st) as [[err|[id username]] st1] eqn:Hinfo;
    pose proof (getBotInfo_update _ _ _ _ Hinfo) as Hupd.
  - eexists. split; [|right; eexists; reflexivity]. cbn. now rewrite Hupd, Hm.
  - destruct (repliesToBot id m) as [[|]|why].
    + exists st1. rewrite Hupd, Hm. auto.
    + destruct (scanText id username trim false st1) as [[b|why] st2] eqn:Ht;
        pose proof (scanText_caption _ _ _ _ _ _ _ Ht) as Hc2.
      * destruct (scanCaption id username trim b st2) as [[[|]|why] st3] eqn:Hcap;
          pose proof (scanCaption_caption _ _ _ _ _ _ _ Hcap) as Hc3;
          exists st3; (split; [congruence|eauto]).
      * exists st2. split; [congruence|eauto].
    + exists st1. rewrite Hupd, Hm. eauto.
Qed.

(** The specification's own example, and the private-chat bypass. *)
Example checkMention_trims_leading_mention :
  checkMention "@bot hello" [mention 0 4] 7 "bot" true = Ret (" hello", true).
Proof. reflexivity. Qed.

Lemma filter_passes_non_group trim infoExpire (next : @HandlerFunc World)
  (st : Store World) m :
  UMessage (update st) = Some m ->
  isGroupChatType (ChatType (MChat m)) = false ->
  NewGroupMessageFilterMiddleware now GetMe trim infoExpire next st = next st.
Proof.
  intros Hm Hg. unfold NewGroupMessageFilterMiddleware. now rewrite Hm, Hg.
Qed.

End GroupMessageFilterFacts.


(** ** The middleware chain *)

Section ChainFacts.
Context {World : Type}.


Lemma firstn_succ_nth {A} (d : A) (l : list A) : forall i,
  (i < List.length l)%nat -> firstn (S i) l = (firstn i l ++ [nth i l d])%list.
Proof.
  induction l as [|x l IH]; intros i Hi; simpl in Hi.
  - lia.
  - destruct i as [|i]; [reflexivity|].
    cbn [firstn nth app]. f_equal. rewrite <- IH by lia. reflexivity.
Qed.

(** The countdown loop applies the first [k] middlewares, the one of
    lowest index last, hence outermost. *)
Lemma wrap_firstn (middleware : list (@MiddlewareFunc World)) : forall k (h : @HandlerFunc World),
  (k <= List.length middleware)%nat ->
  wrap middleware k h = fold_right (fun m next => m next) h (firstn k middleware).
Proof.
  induction k as [|i IH]; intros h Hk.
  - reflexivity.
  - cbn [wrap]. rewrite IH by lia.
    rewrite (@firstn_succ_nth (@MiddlewareFunc World) (fun next => next) middleware i) by lia.
    rewrite fold_right_app. reflexivity.
Qed.

Lemma wrap_fold_right (middleware : list (@MiddlewareFunc World)) (h : @HandlerFunc World) :
  wrap middleware (List.length middleware) h
  = fold_right (fun m next => m next) h middleware.
Proof.
  rewrite wrap_firstn by lia. rewrite firstn_all. reflexivity.
Qed.

(** Instrumented middlewares around an instrumented terminal handler:
    entries in list order, then the terminal, then exits in reverse. *)
Lemma observed_chain_events (names : list string) T r : forall st : Store World,
  fold_right (fun m next => m next) (observed_terminal T r) (map observe names) st
  = (Ret r,
     mkStore (update st)
             (events st ++ map Enter names ++ [Enter T; Exit T]
                        ++ rev (map Exit names))%list
             (cache st) (world st)).
Proof.
  induction names as [|n names IH]; intros st.
  - cbn. unfold observed_terminal, emit. cbn.
    rewrite <- app_assoc. reflexivity.
  - cbn [map fold_right]. unfold observe at 1. rewrite IH.
    unfold emit. cbn [update events cache world rev map].
    repeat rewrite <- app_assoc. cbn [app].
    repeat rewrite <- app_assoc. reflexivity.
Qed.

(** C8.  [WithMiddleware] with the list [[m1; m2]] runs [m1 (m2 T)]: [m1]
    is outermost.  With instrumented handlers [A], [B] around terminal [T]
    the calls are observed in the order A, B, T and the returns in the order
    T, B, A; the error handler, if any, runs after all of them. *)
Theorem WithMiddleware_first_is_outermost :
  (forall (T : @HandlerFunc World) (m1 m2 : @MiddlewareFunc World),
     wrap [m1; m2] (List.length [m1; m2]) T = m1 (m2 T)) /\
  (forall (T : @HandlerFunc World) e (m1 m2 : @MiddlewareFunc World) st,
     WithMiddleware T e [m1; m2] st = WithMiddleware (m1 (m2 T)) e [] st) /\
  (forall (A B T : string) r e (st : Store World),
     let st' := mkStore (update st)
                        (events st ++ [Enter A; Enter B; Enter T;
                                       Exit T; Exit B; Exit A])%list
                        (cache st) (world st) in
     WithMiddleware (observed_terminal T r) e [observe A; observe B] st
     = match r, e with
       | Some err, Some e => e err st'
       | _, _ => (Ret tt, st')
       end).
Proof.
  split; [reflexivity|split; [reflexivity|]].
  intros A B T r e st st'. unfold WithMiddleware.
  rewrite wrap_fold_right.
  change [observe A; observe B] with (map (@observe World) [A; B]).
  rewrite observed_chain_events. cbn [map rev app].
  subst st'. destruct r, e; reflexivity.
Qed.

(** C6.  With the default options, when the composed handler returns an
    error and the update then has no [Message], the error handler panics on
    the nil pointer: the store is left as the handler left it, so nothing is
    logged. *)
Theorem default_error_handler_panics_without_message
  (h : @HandlerFunc World) (middleware : list (@MiddlewareFunc World))
  (st st' : Store World) (err : error) :
  wrap middleware (List.length middleware) h st = (Ret (Some err), st') ->
  UMessage (update st') = None ->
  WithMiddleware h (opt_errorHandler (newOptions [])) middleware st
  = (Panic nil_panic, st').
Proof.
  intros Hrun Hnil. unfold WithMiddleware. rewrite Hrun.
  cbn. unfold defaultErrorHandler. rewrite Hnil. reflexivity.
Qed.

(** With a message present the same handler logs the error instead. *)
Lemma default_error_handler_logs_with_message
  (h : @HandlerFunc World) (middleware : list (@MiddlewareFunc World))
  (st st' : Store World) (err : error) (m : Message) :
  wrap middleware (List.length middleware) h st = (Ret (Some err), st') ->
  UMessage (update st') = Some m ->
  WithMiddleware h (opt_errorHandler (newOptions [])) middleware st
  = (Ret tt, emit (Slog "ERROR" "receive error" "update" (Text m)) st').
Proof.
  intros Hrun Hm. unfold WithMiddleware. rewrite Hrun.
  cbn. unfold defaultErrorHandler. rewrite Hm. reflexivity.
Qed.

End ChainFacts.

Lemma default_error_handler_panics_without_message_witness :
  WithMiddleware demo_failing (opt_errorHandler (newOptions [])) [] demo_callback_store
  = (Panic nil_panic, demo_callback_store).
Proof.
  apply (default_error_handler_panics_without_message
           demo_failing [] demo_callback_store demo_callback_store
           (ErrPlain "boom")); reflexivity.
Defined.

(** ** Command registration and matching *)

Lemma prefix_empty (s : string) : String.prefix "" s = true.
Proof. destruct s; reflexivity. Qed.

Lemma prefix_iff_append (p s : string) :
  String.prefix p s = true <-> exists rest, s = (p ++ rest)%string.
Proof.
  revert s. induction p as [|c p IH]; intros s.
  - rewrite prefix_empty. split; [intros _; exists s; reflexivity|reflexivity].
  - destruct s as [|d s]; cbn [String.prefix append].
    + split; [discriminate|intros [rest H]; discriminate].
    + destruct (Ascii.ascii_dec c d) as [->|Hne].
      * rewrite IH. split; intros [rest H]; exists rest.
        -- now rewrite H.
        -- now inversion H.
      * split; [discriminate|].
        intros [rest H]. inversion H. congruence.
Qed.

Lemma substring_whole (s : string) : substring 0 (String.length s) s = s.
Proof. induction s as [|c s IH]; simpl; [reflexivity|now rewrite IH]. Qed.

Lemma prefix_substring (s : string) : forall n,
  String.prefix (substring 0 n s) s = true.
Proof.
  induction s as [|c s IH]; intros [|n]; cbn [substring String.prefix];
    try reflexivity.
  destruct (Ascii.ascii_dec c c); [apply IH|congruence].
Qed.

Lemma prefix_refl (s : string) : String.prefix s s = true.
Proof.
  induction s as [|c s IH]; cbn [String.prefix]; [reflexivity|].
  destruct (Ascii.ascii_dec c c); [exact IH|congruence].
Qed.

Lemma prefix_first_token (text : string) :
  String.prefix (first_token text) text = true.
Proof.
  unfold first_token. destruct (Index text " ").
  - apply prefix_substring.
  - apply prefix_refl.
Qed.

(** The stored pattern: the command itself when it already starts with a
    slash, the command behind a slash otherwise. *)
Lemma commandPattern_canonical (command : string) :
  commandPattern command
  = (if HasPrefix command "/" then command else "/" ++ command)%string.
Proof.
  unfold commandPattern, TrimPrefix.
  destruct (HasPrefix command "/") eqn:Hp; [|reflexivity].
  unfold HasPrefix in Hp. apply prefix_iff_append in Hp as [rest ->].
  cbn [append String.length substring Nat.sub].
  rewrite Nat.sub_0_r, substring_whole. reflexivity.
Qed.

Section RegistryFacts.
Context {World : Type}.

(** C2, as the code has it.  [BindCommand] appends one entry to the table;
    its pattern always starts with a slash (one is put in front of a command
    that lacks it); the entry matches exactly the messages whose text begins
    with the pattern, so in particular every message whose first token is
    the pattern; and an update that matches it and no earlier entry is
    dispatched to the wrapped handler. *)
Theorem BindCommand_registers_prefix_match
  (b : @Bot World) (command : string) (handlerFunc : @HandlerFunc World)
  (mws : list (@MiddlewareFunc World)) :
  exists h : handler,
    handlers (BindCommand b command handlerFunc mws) = (handlers b ++ [h])%list
    /\ fn h = WithMiddleware handlerFunc (errorHandler b) (middlewares b ++ mws)
    /\ pattern h = (if HasPrefix command "/" then command else "/" ++ command)%string
    /\ HasPrefix (pattern h) "/" = true
    /\ (forall u, handler_match h u = true <->
                  exists m rest, UMessage u = Some m
                                 /\ Text m = (pattern h ++ rest)%string)
    /\ (forall u m, UMessage u = Some m -> first_token (Text m) = pattern h ->
                    handler_match h u = true)
    /\ (forall u, handler_match h u = true ->
                  (forall h0, In h0 (handlers b) -> handler_match h0 u = false) ->
                  findHandler (BindCommand b command handlerFunc mws) u = fn h).
Proof.
  eexists. split; [reflexivity|]. cbn [fn pattern].
  split; [reflexivity|]. split; [apply commandPattern_canonical|].
  split; [apply prefix_iff_append; eexists; reflexivity|]. split; [|split].
  - intros u. unfold handler_match. cbn [handlerType matchType pattern].
    destruct (UMessage u) as [m|]; cbn [option_map].
    + unfold HasPrefix. rewrite prefix_iff_append. split.
      * intros [rest H]. exists m, rest. auto.
      * intros [m' [rest [Hm H]]]. inversion Hm; subst m'. exists rest. exact H.
    + split; [discriminate|]. intros [m [rest [Hm _]]]. discriminate.
  - intros u m Hm Htok. unfold handler_match.
    cbn [handlerType matchType pattern]. rewrite Hm. cbn [option_map].
    unfold HasPrefix. rewrite <- Htok. apply prefix_first_token.
  - intros u Hmatch Hnone. unfold findHandler, BindCommand, RegisterHandler.
    cbn [handlers noRouteHandler].
    induction (handlers b) as [|h0 hs IH]; cbn [app find].
    + rewrite Hmatch. reflexivity.
    + rewrite (Hnone h0) by (left; reflexivity).
      apply IH. intros h1 Hin. apply Hnone. right. exact Hin.
Qed.

End RegistryFacts.

(** C2 as stated fails: the entry registered for ["start"] matches the text
    ["/starter"], whose only token is not the pattern ["/start"]. *)
Lemma BindCommand_matches_beyond_the_token :
  let b := BindCommand demo_bot "start" demo_failing [] in
  map pattern (handlers b) = ["/start"]
  /\ map (fun h => handler_match h (text_update "/starter")) (handlers b) = [true]
  /\ first_token "/starter" = "/starter"
  /\ ~ (forall h, In h (handlers b) ->
          (handler_match h (text_update "/starter") = true
           <-> first_token "/starter" = pattern h)).
Proof.
  cbv zeta. split; [reflexivity|split; [reflexivity|split; [reflexivity|]]].
  intros H.
  specialize (H _ (or_introl eq_refl)).
  destruct H as [H _]. specialize (H eq_refl). discriminate H.
Qed.

Lemma BindCommand_registers_prefix_match_witness :
  exists h : @handler unit,
    handlers (BindCommand demo_bot "start" demo_failing []) = (handlers demo_bot ++ [h])%list
    /\ fn h = WithMiddleware demo_failing None (middlewares demo_bot ++ [])
    /\ pattern h = "/start"
    /\ HasPrefix (pattern h) "/" = true
    /\ (forall u, handler_match h u = true <->
                  exists m rest, UMessage u = Some m
                                 /\ Text m = (pattern h ++ rest)%string)
    /\ (forall u m, UMessage u = Some m -> first_token (Text m) = pattern h ->
                    handler_match h u = true)
    /\ (forall u, handler_match h u = true ->
                  (forall h0, In h0 (handlers demo_bot) -> handler_match h0 u = false) ->
                  findHandler (BindCommand demo_bot "start" demo_failing []) u = fn h).
Proof.
  exact (BindCommand_registers_prefix_match demo_bot "start" demo_failing []).
Defined.

(** ** Retry on throttling *)

Section RetryFacts.
Context {S : Type}.
Variable send : @Op S.

Lemma retry_exhausted maxRetries s :
  maxRetries < 0 ->
  RetryOnTooManyRequestsError maxRetries send s = (Some maxRetriesExceeded, s, []).
Proof.
  intros H. simp RetryOnTooManyRequestsError.
  destruct (Z_lt_dec maxRetries 0); [reflexivity|lia].
Qed.

Lemma retry_success maxRetries s s' :
  0 <= maxRetries -> send s = (None, s') ->
  RetryOnTooManyRequestsError maxRetries send s = (None, s', [Invoke]).
Proof.
  intros H Hs. simp RetryOnTooManyRequestsError.
  destruct (Z_lt_dec maxRetries 0); [lia|]. cbn. rewrite Hs. reflexivity.
Qed.

Lemma retry_throttled maxRetries s s' err retryAfter :
  0 <= maxRetries -> send s = (Some err, s') ->
  errors_As_TooManyRequests err = Some retryAfter ->
  RetryOnTooManyRequestsError maxRetries send s
  = after [Invoke; Sleep (sleepDuration retryAfter)]
          (RetryOnTooManyRequestsError (maxRetries - 1) send s').
Proof.
  intros H Hs He. rewrite RetryOnTooManyRequestsError_equation_1.
  destruct (Z_lt_dec maxRetries 0); [lia|]. cbn. rewrite Hs. cbn.
  rewrite He. reflexivity.
Qed.

Lemma retry_other_error maxRetries s s' err :
  0 <= maxRetries -> send s = (Some err, s') ->
  errors_As_TooManyRequests err = None ->
  RetryOnTooManyRequestsError maxRetries send s = (Some err, s', [Invoke]).
Proof.
  intros H Hs He. rewrite RetryOnTooManyRequestsError_equation_1.
  destruct (Z_lt_dec maxRetries 0); [lia|]. cbn. rewrite Hs. cbn.
  rewrite He. reflexivity.
Qed.

End RetryFacts.

(** [RetryAfter] seconds are slept as that many nanoseconds as long as the
    product fits a 64-bit duration. *)
Lemma sleepDuration_exact retryAfter :
  0 <= retryAfter <= 9223372036 ->
  sleepDuration retryAfter = retryAfter * time_Second.
Proof.
  intros H. unfold sleepDuration, mul64, wrap64, time_Second.
  rewrite Z.mod_small by lia. lia.
Qed.

(** C3.  [RetryOnTooManyRequestsError] returns nil when [send] succeeds;
    on a throttling error it sleeps the duration the error carries and
    retries with the budget decremented; any other error is returned after
    that one invocation; a negative budget returns the retries-exceeded
    error without invoking [send].  An operation failing twice with a
    zero-wait throttling error and then succeeding: budget 2 gives nil after
    3 invocations, budget 1 the retries-exceeded error after 2. *)
Theorem RetryOnTooManyRequestsError_behaviour :
  (forall (S : Type) (send : @Op S) (maxRetries : Z) (s : S),
     (maxRetries < 0 ->
      RetryOnTooManyRequestsError maxRetries send s
      = (Some maxRetriesExceeded, s, []))
     /\ (forall s', 0 <= maxRetries -> send s = (None, s') ->
         RetryOnTooManyRequestsError maxRetries send s = (None, s', [Invoke]))
     /\ (forall s' err retryAfter,
         0 <= maxRetries -> send s = (Some err, s') ->
         errors_As_TooManyRequests err = Some retryAfter ->
         RetryOnTooManyRequestsError maxRetries send s
         = after [Invoke; Sleep (sleepDuration retryAfter)]
                 (RetryOnTooManyRequestsError (maxRetries - 1) send s'))
     /\ (forall s' err,
         0 <= maxRetries -> send s = (Some err, s') ->
         errors_As_TooManyRequests err = None ->
         RetryOnTooManyRequestsError maxRetries send s = (Some err, s', [Invoke])))
  /\ (forall retryAfter, 0 <= retryAfter <= 9223372036 ->
        sleepDuration retryAfter = retryAfter * time_Second)
  /\ (exists tr,
        RetryOnTooManyRequestsError 2 fails_twice 0%nat = (None, 3%nat, tr)
        /\ tr = [Invoke; Sleep 0; Invoke; Sleep 0; Invoke]
        /\ invocations tr = 3%nat)
  /\ (exists tr,
        RetryOnTooManyRequestsError 1 fails_twice 0%nat
        = (Some maxRetriesExceeded, 2%nat, tr)
        /\ tr = [Invoke; Sleep 0; Invoke; Sleep 0]
        /\ invocations tr = 2%nat).
Proof.
  split; [|split; [exact sleepDuration_exact|split]].
  - intros S send maxRetries s. repeat split; intros.
    + apply retry_exhausted; assumption.
    + apply retry_success; assumption.
    + eapply retry_throttled; eassumption.
    + apply retry_other_error; assumption.
  - eexists. split; [|split; reflexivity].
    rewrite (retry_throttled fails_twice 2 0%nat 1%nat _ 0) by (reflexivity || lia).
    rewrite (retry_throttled fails_twice (2 - 1) 1%nat 2%nat _ 0) by (reflexivity || lia).
    rewrite (retry_success fails_twice (2 - 1 - 1) 2%nat 3%nat) by (reflexivity || lia).
    reflexivity.
  - eexists. split; [|split; reflexivity].
    rewrite (retry_throttled fails_twice 1 0%nat 1%nat _ 0) by (reflexivity || lia).
    rewrite (retry_throttled fails_twice (1 - 1) 1%nat 2%nat _ 0) by (reflexivity || lia).
    rewrite (retry_exhausted fails_twice (1 - 1 - 1) 2%nat) by lia.
    reflexivity.
Qed.

Lemma RetryOnTooManyRequestsError_behaviour_witness :
  RetryOnTooManyRequestsError (-1) fails_twice 0%nat
  = (Some maxRetriesExceeded, 0%nat, [])
  /\ RetryOnTooManyRequestsError 0 fails_twice 2%nat = (None, 3%nat, [Invoke])
  /\ RetryOnTooManyRequestsError 1 fails_twice 0%nat
     = after [Invoke; Sleep (sleepDuration 0)]
             (RetryOnTooManyRequestsError (1 - 1) fails_twice 1%nat)
  /\ sleepDuration 30 = 30 * time_Second.
Proof.
  destruct RetryOnTooManyRequestsError_behaviour as [Hgen [Hsleep _]].
  destruct (Hgen nat fails_twice (-1) 0%nat) as [Hneg _].
  destruct (Hgen nat fails_twice 0 2%nat) as [_ [Hok _]].
  destruct (Hgen nat fails_twice 1 0%nat) as [_ [_ [Hthr _]]].
  split; [apply Hneg; lia|].
  split; [apply (Hok 3%nat); [lia|reflexivity]|].
  split; [apply (Hthr 1%nat (ErrTooManyRequests "Too Many Requests" 0) 0);
          [lia|reflexivity|reflexivity]|].
  apply Hsleep. lia.
Defined.

(** ** Broadcast delivery *)

Section BroadcastFacts.
Context {T World : Type}.
Variable ctxErr : World -> option error.
Variable limiterWait : World -> option error * World.
Variable send : T -> World -> option error * World.
Variable opts : @broadcastOptions World.
Variable total : Z.

Lemma report_events i e w :
  snd (report opts i e total w) = reported (T := T) opts total i e.
Proof. unfold report, reported. destruct (progress opts); reflexivity. Qed.

(** Every run of the loop has one of the shapes. *)
Lemma broadcast_loop_shape (data : list T) : forall i e w,
  run_shape ctxErr limiterWait send opts total i e data
            (fst (fst (broadcast_loop ctxErr limiterWait send opts total data i e w)))
            (snd (broadcast_loop ctxErr limiterWait send opts total data i e w)).
Proof.
  induction data as [|d rest IH]; intros i e w; cbn [broadcast_loop].
  - pose proof (report_events total e w) as Hr.
    destruct (report opts total e total w) as [w' evs]. cbn in *. subst evs.
    constructor.
  - destruct (ctxErr w) as [err|] eqn:Hctx.
    + cbn. econstructor; eassumption.
    + pose proof (report_events i e w) as Hr.
      destruct (report opts i e total w) as [w1 evs]. cbn in Hr. subst evs.
      destruct (limiterWait w1) as [[err|] w2] eqn:Hw.
      * cbn. apply shape_limited with (w := w1). now rewrite Hw.
      * destruct (send d w2) as [[err|] w3] eqn:Hs.
        -- destruct (terminalOnSendError opts) eqn:Hstop.
           ++ cbn. apply shape_stopped with (w := w2); [assumption|now rewrite Hs].
           ++ specialize (IH (i + 1) (e + 1) w3).
              destruct (broadcast_loop ctxErr limiterWait send opts total rest
                          (i + 1) (e + 1) w3) as [[res w'] tr].
              cbn in *. apply shape_failed with (w := w2);
                [assumption|now rewrite Hs|assumption].
        -- specialize (IH (i + 1) e w3).
           destruct (broadcast_loop ctxErr limiterWait send opts total rest
                       (i + 1) e w3) as [[res w'] tr].
           cbn in *. apply shape_sent with (w := w2); [now rewrite Hs|assumption].
Qed.


Lemma failures_app (a b : list (@BroadcastEvent T)) :
  failures (a ++ b) = failures a + failures b.
Proof.
  induction a as [|[i e t|i d [err|]] a IH]; cbn [app failures]; lia.
Qed.


Lemma failures_reported i e : failures (reported (T := T) opts total i e) = 0.
Proof. unfold reported. destruct (progress opts); reflexivity. Qed.









End BroadcastFacts.



(** ** Callback data *)

Lemma length_app_string (a b : string) :
  String.length (a ++ b) = (String.length a + String.length b)%nat.
Proof. induction a as [|c a IH]; cbn; [reflexivity|now rewrite IH]. Qed.

Lemma substring_app_head (a b : string) :
  substring 0 (String.length a) (a ++ b) = a.
Proof.
  induction a as [|c a IH]; cbn.
  - destruct b; reflexivity.
  - now rewrite IH.
Qed.

Lemma substring_app_skip (a b : string) m :
  substring (String.length a) m (a ++ b) = substring 0 m b.
Proof. induction a as [|c a IH]; cbn; [reflexivity|exact IH]. Qed.

(** In [route ++ ":" ++ payload] the first colon is the separator when the
    route has none. *)
Lemma Index_separator (route payload : string) :
  has_colon route = false ->
  Index (route ++ ":" ++ payload) ":" = Some (String.length route).
Proof.
  induction route as [|c route IH]; intros Hc.
  - cbn [append Index String.prefix].
    destruct (Ascii.ascii_dec ":" ":"); [|congruence].
    rewrite prefix_empty. reflexivity.
  - cbn [has_colon] in Hc. apply Bool.orb_false_iff in Hc as [Hne Hc].
    cbn [append Index String.prefix String.length].
    destruct (Ascii.ascii_dec ":" c) as [<-|_].
    + rewrite Ascii.eqb_refl in Hne. discriminate.
    + cbn [append] in IH. rewrite (IH Hc). reflexivity.
Qed.

Lemma SplitN_separator (route payload : string) :
  has_colon route = false ->
  SplitN (route ++ ":" ++ payload) ":" 2 = [route; payload].
Proof.
  intros Hc. cbn [SplitN genSplit]. rewrite (Index_separator _ _ Hc).
  rewrite substring_app_head. f_equal.
  rewrite !length_app_string.
  replace (String.length route + String.length ":")%nat
    with (String.length (route ++ ":"))%string by apply length_app_string.
  replace (route ++ ":" ++ payload)%string with ((route ++ ":") ++ payload)%string
    by (clear; induction route as [|c r IH]; cbn; [reflexivity|now rewrite IH]).
  rewrite substring_app_skip.
  replace (String.length route + (String.length ":" + String.length payload)
           - String.length (route ++ ":"))%nat
    with (String.length payload)
    by (rewrite length_app_string; lia).
  rewrite substring_whole. reflexivity.
Qed.

(** C9.  For a route without [":"] and a value the serializer can carry,
    unmarshalling the marshalled callback data gives back the route and the
    value, with a nil error. *)
Theorem UnmarshalData_MarshalData_roundtrip
  (T : Type) (Marshal : T -> string * option error)
  (Unmarshal : string -> error + T) (route : string) (v : T) :
  has_colon route = false ->
  serializable Marshal Unmarshal v ->
  UnmarshalData Unmarshal (MarshalData Marshal route v) = (route, Some v, None).
Proof.
  intros Hc [b [Hm Hu]]. unfold MarshalData, UnmarshalData.
  rewrite Hm, (SplitN_separator _ _ Hc), Hu. reflexivity.
Qed.

Lemma UnmarshalData_MarshalData_roundtrip_witness :
  UnmarshalData demo_Unmarshal (MarshalData demo_Marshal "menu" "[7,a:b]")
  = ("menu", Some "[7,a:b]", None).
Proof.
  apply (UnmarshalData_MarshalData_roundtrip string demo_Marshal demo_Unmarshal
           "menu" "[7,a:b]").
  - reflexivity.
  - exists "[7,a:b]". split; reflexivity.
Defined.

(** A colon inside the route does break the round trip: the split happens
    at the first one. *)
Example UnmarshalData_route_with_colon :
  UnmarshalData demo_Unmarshal (MarshalData demo_Marshal "a:b" "x")
  = ("a", Some "b:x", None).
Proof. reflexivity. Qed.

(* ===================================================================== *)
(** * Part III: further properties of the code                            *)
(* ===================================================================== *)

(** ** Retry: how often [send] runs *)

Section RetryBounds.
Context {S : Type}.
Variable send : @Op S.

Lemma invocations_after tr d :
  invocations (Invoke :: Sleep d :: tr) = Datatypes.S (invocations tr).
Proof. reflexivity. Qed.

(** X1.  Whatever [send] does, a retry with budget [maxRetries] invokes it
    at most [maxRetries + 1] times, and not at all when the budget is
    negative. *)
Theorem retry_invocations_bounded (maxRetries : Z) (s : S) :
  Z.of_nat (invocations (snd (RetryOnTooManyRequestsError maxRetries send s)))
  <= Z.max 0 (maxRetries + 1).
Proof.
  remember (Z.to_nat (maxRetries + 1)) as n eqn:Hn.
  revert maxRetries s Hn.
  induction n as [|n IH]; intros maxRetries s Hn.
  - rewrite retry_exhausted by lia. cbn. lia.
  - assert (0 <= maxRetries) as Hpos by lia.
    destruct (send s) as [[err|] s'] eqn:Hs.
    + destruct (errors_As_TooManyRequests err) as [retryAfter|] eqn:He.
      * rewrite (retry_throttled send _ _ _ _ _ Hpos Hs He).
        specialize (IH (maxRetries - 1) s' ltac:(lia)).
        destruct (RetryOnTooManyRequestsError (maxRetries - 1) send s')
          as [[res s''] tr].
        cbn [after snd app] in *. rewrite invocations_after. lia.
      * rewrite (retry_other_error send _ _ _ _ Hpos Hs He). cbn. lia.
    + rewrite (retry_success send _ _ _ Hpos Hs). cbn. lia.
Qed.

(** X2.  Against an operation that is throttled on every call, a retry with
    budget [maxRetries >= 0] makes exactly [maxRetries + 1] invocations and
    then returns the retries-exceeded error: the throttling error itself is
    not what the caller gets. *)
Theorem retry_always_throttled (maxRetries : Z) (s : S) :
  0 <= maxRetries ->
  (forall s0, exists err retryAfter,
      fst (send s0) = Some err
      /\ errors_As_TooManyRequests err = Some retryAfter) ->
  fst (fst (RetryOnTooManyRequestsError maxRetries send s)) = Some maxRetriesExceeded
  /\ Z.of_nat (invocations (snd (RetryOnTooManyRequestsError maxRetries send s)))
     = maxRetries + 1.
Proof.
  intros Hpos Hthr.
  remember (Z.to_nat (maxRetries + 1)) as n eqn:Hn.
  revert maxRetries s Hn Hpos.
  induction n as [|n IH]; intros maxRetries s Hn Hpos; [lia|].
  destruct (Hthr s) as [err [retryAfter [Hs He]]].
  destruct (send s) as [r s'] eqn:Hsend. cbn in Hs. subst r.
  rewrite (retry_throttled send _ _ _ _ _ Hpos Hsend He).
  destruct (Z.eq_dec maxRetries 0) as [->|Hne].
  - rewrite retry_exhausted by lia. cbn. auto.
  - specialize (IH (maxRetries - 1) s' ltac:(lia) ltac:(lia)).
    destruct (RetryOnTooManyRequestsError (maxRetries - 1) send s')
      as [[res s''] tr].
    cbn [after fst snd app] in *. rewrite invocations_after.
    destruct IH as [-> Hinv]. split; [reflexivity|lia].
Qed.

End RetryBounds.

Lemma retry_always_throttled_witness :
  fst (fst (RetryOnTooManyRequestsError 3 always_throttled 0%nat))
  = Some maxRetriesExceeded
  /\ Z.of_nat (invocations (snd (RetryOnTooManyRequestsError 3 always_throttled 0%nat)))
     = 3 + 1.
Proof.
  apply (retry_always_throttled always_throttled 3 0%nat).
  - lia.
  - intros s0. exists (ErrTooManyRequests "Too Many Requests" 1), 1.
    split; reflexivity.
Defined.

(** ** Broadcast: empty input, cancellation, stopping at the first error *)

Section BroadcastEdges.
Context {T World : Type}.
Variable ctxErr : World -> option error.
Variable limiterWait : World -> option error * World.
Variable send : T -> World -> option error * World.

(** X3.  The context is only consulted when a target is left: with no
    targets the broadcast returns nil without any send, even under a
    cancelled context; with targets and a context cancelled from the start
    it returns the context's error before any report or send. *)
Theorem broadcast_cancellation_needs_a_target :
  (forall options w,
     fst (fst (BroadcastMessage ctxErr limiterWait send [] options w)) = None
     /\ sends (snd (BroadcastMessage ctxErr limiterWait send [] options w)) = [])
  /\ (forall d rest options w err,
        ctxErr w = Some err ->
        BroadcastMessage ctxErr limiterWait send (d :: rest) options w
        = (Some err, w, [])).
Proof.
  split.
  - intros options w. unfold BroadcastMessage. cbn [broadcast_loop].
    unfold report. destruct (progress (newBroadcastOptions options));
      cbn; auto.
  - intros d rest options w err Hc. unfold BroadcastMessage.
    cbn [broadcast_loop]. rewrite Hc. reflexivity.
Qed.

Variable opts : @broadcastOptions World.
Variable total : Z.

Lemma reported_no_sent i e (tr1 tr2 : list (@BroadcastEvent T)) j d r :
  reported opts total i e <> (tr1 ++ Sent j d r :: tr2)%list.
Proof.
  unfold reported. destruct (progress opts); intros H.
  - destruct tr1 as [|x [|y tr1]]; inversion H.
  - destruct tr1; inversion H.
Qed.

Lemma split_reported_sent i e d r (tr tr1 tr2 : list (@BroadcastEvent T)) j d' r' :
  (reported opts total i e ++ Sent i d r :: tr)%list = (tr1 ++ Sent j d' r' :: tr2)%list ->
  (r' = r /\ tr2 = tr)
  \/ (exists tr1', tr = (tr1' ++ Sent j d' r' :: tr2)%list).
Proof.
  unfold reported. destruct (progress opts); cbn [app]; intros H.
  - destruct tr1 as [|x [|y tr1]]; inversion H; subst; eauto.
  - destruct tr1 as [|x tr1]; inversion H; subst; eauto.
Qed.

Lemma run_shape_failed_send_is_last i e data res tr :
  terminalOnSendError opts = true ->
  run_shape ctxErr limiterWait send opts total i e data res tr ->
  forall tr1 j d err tr2,
    tr = (tr1 ++ Sent j d (Some err) :: tr2)%list ->
    tr2 = [] /\ res = Some err.
Proof.
  intros Hstop H.
  induction H; intros tr1 j d0 err0 tr2 Heq.
  - exfalso. eapply reported_no_sent; eassumption.
  - destruct tr1; inversion Heq.
  - exfalso. eapply reported_no_sent; eassumption.
  - apply split_reported_sent in Heq as [[Hr ->]|[tr1' Hnil]].
    + inversion Hr; subst. auto.
    + destruct tr1'; inversion Hnil.
  - congruence.
  - apply split_reported_sent in Heq as [[Hr _]|[tr1' Hrest]].
    + discriminate.
    + eapply IHrun_shape; eassumption.
Qed.

End BroadcastEdges.

(** X4.  With [WithTerminalOnSendError(true)] in force, a failed send is
    the last thing the broadcast does, and its error is the result: no
    target after the failing one is sent to and no final report is made. *)
Theorem broadcast_stops_at_first_error
  (T World : Type) ctxErr limiterWait (send : T -> World -> option error * World)
  (data : list T) options (w : World) res w' tr :
  terminalOnSendError (newBroadcastOptions options) = true ->
  BroadcastMessage ctxErr limiterWait send data options w = (res, w', tr) ->
  forall tr1 j d err tr2,
    tr = (tr1 ++ Sent j d (Some err) :: tr2)%list ->
    tr2 = [] /\ res = Some err.
Proof.
  intros Hstop Hrun. unfold BroadcastMessage in Hrun.
  pose proof (broadcast_loop_shape ctxErr limiterWait send
                (newBroadcastOptions options)
                (Z.of_nat (List.length data)) data 0 0 w) as Hshape.
  rewrite Hrun in Hshape. cbn [fst snd] in Hshape.
  eapply run_shape_failed_send_is_last; eassumption.
Qed.

Lemma broadcast_stops_at_first_error_witness :
  @nil (@BroadcastEvent string) = []
  /\ Some (ErrPlain "blocked by user") = Some (ErrPlain "blocked by user").
Proof.
  apply (broadcast_stops_at_first_error string nat
           demo_ctxErr demo_limiterWait demo_send ["a"; "b"; "c"]
           [WithProgress demo_progress; WithTerminalOnSendError true]
           0%nat (Some (ErrPlain "blocked by user")) 2%nat
           [Report 0 0 3; Sent 0 "a" None; Report 1 0 3;
            Sent 1 "b" (Some (ErrPlain "blocked by user"))]
           eq_refl eq_refl
           [Report 0 0 3; Sent 0 "a" None; Report 1 0 3] 1 "b"
           (ErrPlain "blocked by user") []).
  reflexivity.
Defined.

(** ** The group-message filter: identity cache and the other paths *)

Section FilterPaths.
Context {World : Type}.
Variable now : World -> Z.
Variable GetMe : World -> (error + User) * World.

(** X5.  Once [getBotInfo] has answered, asking again while the cached
    entry is younger than [infoExpire] gives the same identity and leaves
    the store, and with it the platform, untouched: no second [GetMe]. *)
Theorem getBotInfo_reuses_fresh_identity infoExpire (st st1 : Store World) id username :
  getBotInfo now GetMe infoExpire st = (inr (id, username), st1) ->
  now (world st1) - ts (cache st1) < infoExpire ->
  getBotInfo now GetMe infoExpire st1 = (inr (id, username), st1).
Proof.
  unfold getBotInfo. intros H Hfresh.
  assert (exists u, user (cache st1) = Some u /\ ID u = id /\ Username u = username)
    as [u [Hu [<- <-]]].
  { repeat (break_match; try discriminate); inversion H; subst; cbn;
      repeat match goal with
             | E : Some _ = Some _ |- _ => inversion E; subst; clear E
             end;
      eexists; (split; [eassumption || reflexivity|split; reflexivity]). }
  rewrite Hu. apply Z.ltb_lt in Hfresh. rewrite Hfresh. reflexivity.
Qed.

(** X6.  Fail closed: for a group message, when no fresh identity is cached
    and [GetMe] fails, the filter returns that error without calling
    downstream; it logs one line and changes neither the update nor the
    cache. *)
Theorem filter_fails_closed trim infoExpire (next : @HandlerFunc World)
  (st : Store World) m err w :
  UMessage (update st) = Some m ->
  isGroupChatType (ChatType (MChat m)) = true ->
  (user (cache st) = None \/ infoExpire <= now (world st) - ts (cache st)) ->
  GetMe (world st) = (inl err, w) ->
  NewGroupMessageFilterMiddleware now GetMe trim infoExpire next st
  = (Ret (Some err),
     mkStore (update st)
             (events st ++ [Slog "ERROR" "get bot info error" "error" (Error err)])
             (cache st) w).
Proof.
  intros Hm Hg Hstale Hget. unfold NewGroupMessageFilterMiddleware, getBotInfo.
  rewrite Hm, Hg. cbn [negb].
  assert (match user (cache st) with
          | Some u => if now (world st) - ts (cache st) <? infoExpire
                      then Some u else None
          | None => None
          end = None) as ->.
  { destruct Hstale as [->|Hold]; [reflexivity|].
    destruct (user (cache st)); [|reflexivity].
    apply Z.ltb_ge in Hold. now rewrite Hold. }
  rewrite Hget. reflexivity.
Qed.

(** X7.  A reply to one of the bot's own messages is handed downstream as
    it is: no scan runs, so the text keeps a mention even under
    [trimMention]. *)
Theorem filter_passes_reply_to_bot trim infoExpire (next : @HandlerFunc World)
  (st st1 : Store World) m r u id username :
  UMessage (update st) = Some m ->
  isGroupChatType (ChatType (MChat m)) = true ->
  getBotInfo now GetMe infoExpire st = (inr (id, username), st1) ->
  ReplyToMessage m = Some r ->
  RFrom r = Some u ->
  ID u = id ->
  NewGroupMessageFilterMiddleware now GetMe trim infoExpire next st = next st1
  /\ update st1 = update st.
Proof.
  intros Hm Hg Hinfo Hr Hu Hid. split.
  - unfold NewGroupMessageFilterMiddleware. rewrite Hm, Hg. cbn [negb].
    rewrite Hinfo. unfold repliesToBot. rewrite Hr, Hu.
    apply Z.eqb_eq in Hid. rewrite Hid. reflexivity.
  - eapply getBotInfo_update; eassumption.
Qed.

(** X8.  A group message that is not a reply, whose text entities do not
    address the bot and which has no caption entities, is swallowed: the
    filter returns nil, downstream is not called and the update is left as
    it came. *)
Theorem filter_swallows_unaddressed trim infoExpire (next : @HandlerFunc World)
  (st st1 : Store World) m entities text id username :
  UMessage (update st) = Some m ->
  isGroupChatType (ChatType (MChat m)) = true ->
  getBotInfo now GetMe infoExpire st = (inr (id, username), st1) ->
  ReplyToMessage m = None ->
  Entities m = Some entities ->
  checkMention (Text m) entities id username trim = Ret (text, false) ->
  CaptionEntities m = None ->
  NewGroupMessageFilterMiddleware now GetMe trim infoExpire next st = (Ret None, st1)
  /\ update st1 = update st.
Proof.
  intros Hm Hg Hinfo Hr He Hc Hce.
  pose proof (getBotInfo_update _ _ _ _ _ _ Hinfo) as Hupd.
  split; [|exact Hupd].
  unfold NewGroupMessageFilterMiddleware. rewrite Hm, Hg. cbn [negb].
  rewrite Hinfo. unfold repliesToBot. rewrite Hr.
  assert (scanText id username trim false st1 = (Ret false, st1)) as ->.
  { unfold scanText. rewrite Hupd, Hm, He.
    destruct (negb (Text m =? "")%string); [|reflexivity].
    rewrite Hc. pose proof (checkMention_unmatched_keeps_text _ _ _ _ _ _ Hc) as ->.
    rewrite (writeText_same st1 m) by (now rewrite Hupd). reflexivity. }
  unfold scanCaption. rewrite Hupd, Hm. cbn [negb]. rewrite Hce. reflexivity.
Qed.

End FilterPaths.

Lemma getBotInfo_reuses_fresh_identity_witness :
  getBotInfo demo_now demo_GetMe 60
             (setCache (mkCache (Some (mkUser 7 "bot")) 0) demo_store)
  = (inr (7, "bot"), setCache (mkCache (Some (mkUser 7 "bot")) 0) demo_store).
Proof.
  apply (getBotInfo_reuses_fresh_identity demo_now demo_GetMe 60 demo_store).
  - reflexivity.
  - cbn. lia.
Defined.

Lemma filter_fails_closed_witness :
  NewGroupMessageFilterMiddleware demo_now demo_GetMe_down true 60 demo_next demo_store
  = (Ret (Some (ErrPlain "bad gateway")),
     mkStore (update demo_store)
             (events demo_store
              ++ [Slog "ERROR" "get bot info error" "error" "bad gateway"])
             (cache demo_store) tt).
Proof.
  apply (filter_fails_closed demo_now demo_GetMe_down true 60 demo_next
           demo_store demo_message (ErrPlain "bad gateway") tt).
  - reflexivity.
  - reflexivity.
  - left. reflexivity.
  - reflexivity.
Defined.

Lemma filter_passes_reply_to_bot_witness :
  NewGroupMessageFilterMiddleware demo_now10 demo_GetMe_down true 60 demo_next
    (demo_cached_store demo_reply)
  = demo_next (demo_cached_store demo_reply)
  /\ update (demo_cached_store demo_reply) = update (demo_cached_store demo_reply).
Proof.
  apply (filter_passes_reply_to_bot demo_now10 demo_GetMe_down true 60 demo_next
           (demo_cached_store demo_reply) (demo_cached_store demo_reply)
           demo_reply (mkReplied (Some (mkUser 7 "bot"))) (mkUser 7 "bot") 7 "bot");
    reflexivity.
Defined.

Lemma filter_swallows_unaddressed_witness :
  NewGroupMessageFilterMiddleware demo_now10 demo_GetMe_down true 60 demo_next
    (demo_cached_store demo_chatter)
  = (Ret None, demo_cached_store demo_chatter)
  /\ update (demo_cached_store demo_chatter) = update (demo_cached_store demo_chatter).
Proof.
  apply (filter_swallows_unaddressed demo_now10 demo_GetMe_down true 60 demo_next
           (demo_cached_store demo_chatter) (demo_cached_store demo_chatter)
           demo_chatter [mention 3 4] "hi @amy" 7 "bot");
    reflexivity.
Defined.

(** ** The mention scan on a single mention *)

Lemma wrap64_small z : 0 <= z < 2 ^ 63 -> wrap64 z = z.
Proof. intros H. unfold wrap64. rewrite Z.mod_small; lia. Qed.

Lemma len_app (a b : string) : len (a ++ b) = len a + len b.
Proof. unfold len. rewrite length_app_string. lia. Qed.

Lemma len_nonneg (a : string) : 0 <= len a.
Proof. unfold len. lia. Qed.

Lemma slice_middle (a m b : string) :
  slice (a ++ m ++ b) (len a) (len a + len m) = Ret m.
Proof.
  unfold slice. rewrite !len_app.
  pose proof (len_nonneg a). pose proof (len_nonneg m). pose proof (len_nonneg b).
  replace ((0 <=? len a) && (len a <=? len a + len m)
           && (len a + len m <=? len a + (len m + len b))) with true
    by (symmetry; rewrite !Bool.andb_true_iff; repeat split; apply Z.leb_le; lia).
  replace (len a + len m - len a) with (len m) by lia.
  unfold len. rewrite !Nat2Z.id.
  rewrite substring_app_skip, substring_app_head. reflexivity.
Qed.

Lemma slice_head (a b : string) : slice_to (a ++ b) (len a) = Ret a.
Proof.
  pose proof (slice_middle "" a b) as H. cbn [append] in H.
  unfold slice_to. exact H.
Qed.

Lemma append_assoc (a b c : string) : ((a ++ b) ++ c = a ++ b ++ c)%string.
Proof. induction a as [|x a IH]; cbn; [reflexivity|now rewrite IH]. Qed.

Lemma append_empty_r (a : string) : (a ++ "" = a)%string.
Proof. induction a as [|x a IH]; cbn; [reflexivity|now rewrite IH]. Qed.

Lemma slice_tail (a m b : string) :
  slice_from (a ++ m ++ b) (len a + len m) = Ret b.
Proof.
  pose proof (slice_middle (a ++ m) b "") as H.
  rewrite append_empty_r, append_assoc, len_app in H.
  unfold slice_from. rewrite !len_app. rewrite Z.add_assoc. exact H.
Qed.

(** X9.  One mention entity that spans ["@" ++ username] inside the text:
    the scan reports a mention and, with [trimMention], returns the text
    with exactly that span removed (without it, the text unchanged); the
    bytes before and after the mention are kept as they are. *)
Theorem checkMention_removes_exactly_the_mention (a b username : string) (id : Z) :
  len (a ++ ("@" ++ username) ++ b) < 2 ^ 63 ->
  let text := (a ++ ("@" ++ username) ++ b)%string in
  let entity := mkEntity MessageEntityTypeMention (len a) (len ("@" ++ username)) None in
  checkMention text [entity] id username true = Ret ((a ++ b)%string, true)
  /\ checkMention text [entity] id username false = Ret (text, true).
Proof.
  intros Hlen text entity.
  assert (add64 (len a) (len ("@" ++ username)) = len a + len ("@" ++ username))
    as Hadd.
  { unfold add64. apply wrap64_small.
    rewrite (len_app a), (len_app ("@" ++ username) b) in Hlen.
    pose proof (len_nonneg a). pose proof (len_nonneg ("@" ++ username)).
    pose proof (len_nonneg b). lia. }
  unfold checkMention, checkMention_loop, checkMention_body.
  cbn [Offset Length Type_ entity]. rewrite Hadd.
  subst text. rewrite slice_middle. cbn [res_bind].
  change (String.eqb MessageEntityTypeMention MessageEntityTypeMention) with true.
  cbn iota. rewrite String.eqb_refl.
  unfold splice. rewrite slice_head, slice_tail. cbn [res_bind append].
  split; reflexivity.
Qed.

Lemma checkMention_removes_exactly_the_mention_witness :
  checkMention "hey @bot, hi" [mkEntity MessageEntityTypeMention 4 4 None] 7 "bot" true
  = Ret ("hey , hi", true)
  /\ checkMention "hey @bot, hi" [mkEntity MessageEntityTypeMention 4 4 None] 7 "bot" false
     = Ret ("hey @bot, hi", true).
Proof.
  apply (checkMention_removes_exactly_the_mention "hey " ", hi" "bot" 7).
  vm_compute. reflexivity.
Defined.

(** ** Callback data: malformed input and the first colon *)

Lemma Index_no_colon (s : string) : has_colon s = false -> Index s ":" = None.
Proof.
  induction s as [|c s IH]; intros Hc; [reflexivity|].
  cbn [has_colon] in Hc. apply Bool.orb_false_iff in Hc as [Hne Hc].
  cbn [Index String.prefix].
  destruct (Ascii.ascii_dec ":" c) as [<-|_].
  - rewrite Ascii.eqb_refl in Hne. discriminate.
  - rewrite (IH Hc). reflexivity.
Qed.

Section EncodingEdges.
Context {T : Type}.
Variable Unmarshal : string -> error + T.

(** X10.  Callback data without any [":"] is rejected with the
    invalid-format error, an empty route and no value, whatever the
    serializer would have made of it. *)
Theorem UnmarshalData_without_separator (data : string) :
  has_colon data = false ->
  UnmarshalData Unmarshal data = ("", None, Some (ErrPlain "invalid data format")).
Proof.
  intros Hc. unfold UnmarshalData. cbn [SplitN genSplit].
  rewrite (Index_no_colon _ Hc). reflexivity.
Qed.

(** X11.  Data of the form [route ++ ":" ++ payload] with a colon-free
    route is cut at the first colon: the payload, colons included, goes to
    the serializer, and the route is returned even when the payload fails to
    decode, then with the serializer's error and no value. *)
Theorem UnmarshalData_cuts_at_first_colon (route payload : string) :
  has_colon route = false ->
  UnmarshalData Unmarshal (route ++ ":" ++ payload)
  = match Unmarshal payload with
    | inl err => (route, None, Some err)
    | inr v => (route, Some v, None)
    end.
Proof.
  intros Hc. unfold UnmarshalData.
  rewrite (SplitN_separator _ _ Hc). reflexivity.
Qed.

End EncodingEdges.

Lemma UnmarshalData_without_separator_witness :
  UnmarshalData demo_Unmarshal "menu" = ("", None, Some (ErrPlain "invalid data format")).
Proof.
  apply (UnmarshalData_without_separator demo_Unmarshal "menu"). reflexivity.
Defined.

Lemma UnmarshalData_cuts_at_first_colon_witness :
  UnmarshalData demo_Unmarshal_strict ("menu" ++ ":" ++ "a:b")
  = ("menu", None, Some (ErrPlain "unexpected payload")).
Proof.
  apply (UnmarshalData_cuts_at_first_colon demo_Unmarshal_strict "menu" "a:b").
  reflexivity.
Defined.

(** ** Routes: callback prefixes and command patterns *)

Lemma colon_free_prefix (route r' rest p : string) :
  has_colon route = false -> has_colon r' = false ->
  (r' ++ ":" ++ p = (route ++ ":") ++ rest)%string ->
  r' = route.
Proof.
  revert r'. induction route as [|c route IH]; intros r' Hr Hr' Heq.
  - destruct r' as [|c' r']; [reflexivity|].
    cbn in Heq. inversion Heq; subst.
    cbn in Hr'. discriminate.
  - cbn [has_colon] in Hr. apply Bool.orb_false_iff in Hr as [Hc Hr].
    destruct r' as [|c' r'].
    + cbn in Heq. inversion Heq; subst. cbn in Hc. discriminate.
    + cbn [has_colon] in Hr'. apply Bool.orb_false_iff in Hr' as [_ Hr'].
      cbn [append] in Heq. inversion Heq; subst.
      f_equal. eapply IH; eassumption.
Qed.

Section RouteFacts.
Context {World : Type}.

(** X12.  [BindCallback] appends one prefix-matched entry whose pattern is
    a prefix of every callback data [MarshalData] builds for that route,
    hence of the data of every button [NewButton] makes for it; among
    routes without [":"] it is a prefix of the data of no other route. *)
Theorem BindCallback_pattern_fits_MarshalData
  (b : @Bot World) (route : string) (handlerFunc : @HandlerFunc World)
  (mws : list (@MiddlewareFunc World)) :
  exists h : handler,
    handlers (BindCallback b route handlerFunc mws) = (handlers b ++ [h])%list
    /\ handlerType h = HandlerTypeCallbackQueryData
    /\ matchType h = MatchTypePrefix
    /\ (forall (T : Type) (Marshal : T -> string * option error) v,
          HasPrefix (MarshalData Marshal route v) (pattern h) = true)
    /\ (forall (T : Type) (Marshal : T -> string * option error) text v,
          HasPrefix (ButtonCallbackData (NewButton Marshal text route v)) (pattern h)
          = true)
    /\ (forall (T : Type) (Marshal : T -> string * option error) r' v,
          has_colon route = false -> has_colon r' = false ->
          HasPrefix (MarshalData Marshal r' v) (pattern h) = true ->
          r' = route).
Proof.
  assert (forall (T : Type) (Marshal : T -> string * option error) v,
            HasPrefix (MarshalData Marshal route v) (route ++ ":") = true) as Hfit.
  { intros T Marshal v. unfold MarshalData, HasPrefix.
    destruct (Marshal v) as [payload _].
    apply prefix_iff_append. exists payload. now rewrite append_assoc. }
  eexists. split; [reflexivity|]. cbn [handlerType matchType pattern].
  split; [reflexivity|]. split; [reflexivity|]. split; [exact Hfit|]. split.
  - intros T Marshal text v. cbn [NewButton ButtonCallbackData]. apply Hfit.
  - intros T Marshal r' v Hr Hr'. unfold MarshalData, HasPrefix.
    destruct (Marshal v) as [payload _].
    intros H. apply prefix_iff_append in H as [rest Heq].
    eapply colon_free_prefix; eassumption.
Qed.

End RouteFacts.

Lemma BindCallback_pattern_fits_MarshalData_witness :
  exists h : @handler unit,
    handlers (BindCallback demo_bot "menu" demo_failing [])
    = (handlers demo_bot ++ [h])%list
    /\ HasPrefix (MarshalData demo_Marshal "menu" "[7]") (pattern h) = true
    /\ (HasPrefix (MarshalData demo_Marshal "menus" "[7]") (pattern h) = true ->
        "menus" = "menu").
Proof.
  destruct (BindCallback_pattern_fits_MarshalData demo_bot "menu" demo_failing [])
    as [h [Hh [_ [_ [Hfit [_ Hexact]]]]]].
  exists h. split; [exact Hh|]. split.
  - exact (Hfit string demo_Marshal "[7]").
  - exact (Hexact string demo_Marshal "menus" "[7]" eq_refl eq_refl).
Defined.

(** X13.  Canonicalizing a command is idempotent, and a command given with
    or without its leading slash is stored as the same pattern. *)
Theorem commandPattern_idempotent (command : string) :
  commandPattern (commandPattern command) = commandPattern command
  /\ (HasPrefix command "/" = false ->
      commandPattern ("/" ++ command) = commandPattern command).
Proof.
  split.
  - rewrite (commandPattern_canonical (commandPattern command)).
    replace (HasPrefix (commandPattern command) "/") with true; [reflexivity|].
    symmetry. unfold commandPattern, HasPrefix.
    apply prefix_iff_append. eexists. reflexivity.
  - intros Hno. rewrite !commandPattern_canonical. rewrite Hno.
    replace (HasPrefix ("/" ++ command) "/") with true; [reflexivity|].
    symmetry. apply prefix_iff_append. eexists. reflexivity.
Qed.

Lemma commandPattern_idempotent_witness :
  commandPattern (commandPattern "help") = commandPattern "help"
  /\ commandPattern ("/" ++ "help") = commandPattern "help".
Proof.
  destruct (commandPattern_idempotent "help") as [Hi Hs].
  split; [exact Hi|exact (Hs eq_refl)].
Defined.

(** ** The chain: nesting, order for any length, short circuits, recovery *)

Section ChainMore.
Context {World : Type}.

Lemma wrap_app (pre post : list (@MiddlewareFunc World)) (h : @HandlerFunc World) :
  wrap (pre ++ post) (List.length (pre ++ post)) h
  = wrap pre (List.length pre) (wrap post (List.length post) h).
Proof. rewrite !wrap_fold_right. apply fold_right_app. Qed.

(** X14.  The handler a Bind method registers runs the bot-level
    middlewares outside the route-level ones: composing with
    [appendMiddlewares b mws] is composing the bot's middlewares around the
    handler already wrapped in [mws]. *)
Theorem bot_middlewares_wrap_route_middlewares
  (b : @Bot World) (handlerFunc : @HandlerFunc World)
  (mws : list (@MiddlewareFunc World)) (st : Store World) :
  WithMiddleware handlerFunc (errorHandler b) (appendMiddlewares b mws) st
  = WithMiddleware (wrap mws (List.length mws) handlerFunc) (errorHandler b)
                   (middlewares b) st.
Proof.
  unfold WithMiddleware, appendMiddlewares. rewrite wrap_app. reflexivity.
Qed.

(** X15.  For any number of instrumented middlewares around an
    instrumented terminal handler that returns nil, the entries are
    observed in list order, then the terminal, then the exits in reverse
    list order. *)
Theorem WithMiddleware_order_any_length (names : list string) (T : string)
  e (st : Store World) :
  WithMiddleware (observed_terminal T None) e (map observe names) st
  = (Ret tt,
     mkStore (update st)
             (events st ++ map Enter names ++ [Enter T; Exit T]
                        ++ rev (map Exit names))%list
             (cache st) (world st)).
Proof.
  unfold WithMiddleware. rewrite wrap_fold_right, observed_chain_events.
  reflexivity.
Qed.

(** X16.  A middleware that answers without looking at its downstream
    handler cuts the chain: the middlewares listed after it and the
    terminal handler have no influence on the run. *)
Theorem short_circuit_hides_the_rest
  (m : @MiddlewareFunc World) (pre post post' : list (@MiddlewareFunc World))
  (h h' : @HandlerFunc World) e (st : Store World) :
  (forall next next', m next = m next') ->
  WithMiddleware h e (pre ++ m :: post) st
  = WithMiddleware h' e (pre ++ m :: post') st.
Proof.
  intros Hm. unfold WithMiddleware.
  rewrite !wrap_fold_right, !fold_right_app. cbn [fold_right].
  rewrite (Hm _ (fold_right (fun m0 next => m0 next) h' post')).
  reflexivity.
Qed.

(** X17.  The recovery middleware never lets a panic through and leaves a
    run that does not panic as it is; around a handler bound with the
    default error handler, an error on an update without [Message] ends as
    one "panic recovered" log line instead of the error report. *)
Theorem recovery_absorbs_error_handler_panic :
  (forall (next : @BotHandlerFunc World) st,
     exists st', NewRecoveryMiddleware next st = (Ret tt, st')
                 /\ (forall st'', next st = (Ret tt, st'') -> st' = st''))
  /\ (forall (h : @HandlerFunc World) middleware st st' err,
        wrap middleware (List.length middleware) h st = (Ret (Some err), st') ->
        UMessage (update st') = None ->
        NewRecoveryMiddleware
          (WithMiddleware h (opt_errorHandler (newOptions [])) middleware) st
        = (Ret tt,
           emit (Slog "ERROR" "panic recovered in bot handler" "error" nil_panic) st')).
Proof.
  split.
  - intros next st. unfold NewRecoveryMiddleware.
    destruct (next st) as [[[]|why] st1]; eexists; split; try reflexivity.
    + intros st'' H. now inversion H.
    + intros st'' H. discriminate.
  - intros h middleware st st' err Hrun Hnil.
    unfold NewRecoveryMiddleware, WithMiddleware. rewrite Hrun.
    cbn. unfold defaultErrorHandler. rewrite Hnil. reflexivity.
Qed.

(** X18.  Options apply in the order given: middlewares accumulate in that
    order, the last error handler wins, and setting an error handler leaves
    the middlewares alone. *)
Theorem newOptions_applies_in_order :
  (forall lists : list (list (@MiddlewareFunc World)),
     opt_middlewares (newOptions (map AppendMiddlewares lists))
     = List.concat lists)
  /\ (forall opts fn,
        opt_errorHandler (newOptions (opts ++ [WithErrorHandler fn])) = fn
        /\ opt_middlewares (newOptions (opts ++ [WithErrorHandler fn]))
           = opt_middlewares (newOptions (World := World) opts)).
Proof.
  split.
  - intros lists. unfold newOptions.
    assert (forall o : @options World,
              opt_middlewares (fold_left (fun o opt => opt o)
                                         (map AppendMiddlewares lists) o)
              = (opt_middlewares o ++ List.concat lists)%list) as H.
    { induction lists as [|l lists IH]; intros o; cbn [map fold_left List.concat].
      - now rewrite app_nil_r.
      - rewrite IH. cbn. now rewrite app_assoc. }
    rewrite H. reflexivity.
  - intros opts fn. unfold newOptions. rewrite fold_left_app. cbn. auto.
Qed.

End ChainMore.

Lemma short_circuit_hides_the_rest_witness :
  WithMiddleware demo_failing None ([observe "A"] ++ demo_gate :: [observe "B"])
                 demo_callback_store
  = WithMiddleware demo_next None ([observe "A"] ++ demo_gate :: []) demo_callback_store.
Proof.
  apply (short_circuit_hides_the_rest demo_gate [observe "A"] [observe "B"] []
           demo_failing demo_next None demo_callback_store).
  intros next next'. reflexivity.
Defined.

Lemma recovery_absorbs_error_handler_panic_witness :
  NewRecoveryMiddleware
    (WithMiddleware demo_failing (opt_errorHandler (newOptions [])) [])
    demo_callback_store
  = (Ret tt,
     emit (Slog "ERROR" "panic recovered in bot handler" "error" nil_panic)
          demo_callback_store).
Proof.
  destruct (@recovery_absorbs_error_handler_panic unit) as [_ H].
  apply (H demo_failing [] demo_callback_store demo_callback_store
           (ErrPlain "boom")); reflexivity.
Defined.

(** ** The value overlay and auth injection *)

Lemma map_lookup_app {V : Type} (k : string) (a b : list (string * V)) :
  map_lookup k (a ++ b)
  = match map_lookup k a with
    | Some v => Some v
    | None => map_lookup k b
    end.
Proof.
  induction a as [|[k' v] a IH]; cbn; [reflexivity|].
  destruct (String.eqb k k'); [reflexivity|exact IH].
Qed.

(** What an overlay answers, wrapped or not. *)
Lemma contextWithValues_Value ctx data key :
  Value (contextWithValues ctx data) key
  = match key with
    | KeyString k =>
        match map_lookup k data with
        | Some v => v
        | None => Value ctx key
        end
    | KeyOther _ => Value ctx key
    end.
Proof. destruct data as [|[k v] data]; destruct key; reflexivity. Qed.

Lemma contextWithValues_passthrough ctx data :
  Deadline (contextWithValues ctx data) = Deadline ctx
  /\ Done (contextWithValues ctx data) = Done ctx
  /\ Err (contextWithValues ctx data) = Err ctx.
Proof. destruct data; cbn; auto. Qed.

(** X19.  Overlays nest: a second overlay on top of a first answers every
    key as one overlay of the two maps with the later bindings in front
    would, so a later value shadows an earlier one and the base context
    answers what neither map holds; deadline, done channel and error are
    those of the base throughout. *)
Theorem contextWithValues_nests ctx (d1 d2 : list (string * any)) :
  (forall key,
     Value (contextWithValues (contextWithValues ctx d1) d2) key
     = Value (contextWithValues ctx (d2 ++ d1)) key)
  /\ Deadline (contextWithValues (contextWithValues ctx d1) d2) = Deadline ctx
  /\ Done (contextWithValues (contextWithValues ctx d1) d2) = Done ctx
  /\ Err (contextWithValues (contextWithValues ctx d1) d2) = Err ctx.
Proof.
  split.
  - intros key. rewrite !contextWithValues_Value.
    destruct key as [k|tag]; [|reflexivity].
    rewrite map_lookup_app. destruct (map_lookup k d2); reflexivity.
  - destruct (contextWithValues_passthrough (contextWithValues ctx d1) d2)
      as [-> [-> ->]].
    apply contextWithValues_passthrough.
Qed.

Section AuthFacts.
Context {World : Type}.

(** X20.  With the default extractor the downstream handler runs under a
    context that answers ["uid"] and ["subject"] with the id and username
    of the requester: the sender of the callback query when there is one,
    whatever the message says, and the sender of the message otherwise.
    Every other key, the deadline, the done channel and the error are those
    of the incoming context. *)
Theorem auth_injects_requester (next : @CtxHandlerFunc World) ctx (st : Store World) u :
  (match UCallbackQuery (update st) with
   | Some q => CbFrom q = u
   | None => exists m, UMessage (update st) = Some m /\ From m = Some u
   end) ->
  exists ctx',
    NewAuthMiddleware DefaultAuthExtractor next ctx st = next ctx' st
    /\ Value ctx' (KeyString "uid") = AnyInt64 (ID u)
    /\ Value ctx' (KeyString "subject") = AnyString (Username u)
    /\ (forall k, k <> "uid" -> k <> "subject" ->
                  Value ctx' (KeyString k) = Value ctx (KeyString k))
    /\ (forall tag, Value ctx' (KeyOther tag) = Value ctx (KeyOther tag))
    /\ Deadline ctx' = Deadline ctx /\ Done ctx' = Done ctx /\ Err ctx' = Err ctx.
Proof.
  intros Hu.
  exists (contextWithValues ctx
            [("uid", AnyInt64 (ID u)); ("subject", AnyString (Username u))]).
  split.
  - unfold NewAuthMiddleware, DefaultAuthExtractor.
    destruct (UCallbackQuery (update st)) as [q|].
    + subst u. reflexivity.
    + destruct Hu as [m [-> ->]]. reflexivity.
  - cbn. repeat split; try reflexivity.
    intros k Hk1 Hk2.
    destruct (String.eqb_spec k "uid"); [contradiction|].
    destruct (String.eqb_spec k "subject"); [contradiction|]. reflexivity.
Qed.

(** X21.  When the update names no requester (no callback query, and no
    message or a message without sender), the default extractor yields no
    claims and downstream runs under the very context that came in; when an
    extractor returns an error, that error is the result and downstream is
    not run. *)
Theorem auth_without_requester_or_on_error :
  (forall (next : @CtxHandlerFunc World) ctx (st : Store World),
     UCallbackQuery (update st) = None ->
     (UMessage (update st) = None
      \/ exists m, UMessage (update st) = Some m /\ From m = None) ->
     NewAuthMiddleware DefaultAuthExtractor next ctx st = next ctx st)
  /\ (forall auth (next : @CtxHandlerFunc World) ctx (st : Store World) info err,
        auth ctx (update st) = (info, Some err) ->
        NewAuthMiddleware auth next ctx st = (Ret (Some err), st)).
Proof.
  split.
  - intros next ctx st Hq Hm. unfold NewAuthMiddleware, DefaultAuthExtractor.
    rewrite Hq. destruct Hm as [->|[m [-> ->]]]; reflexivity.
  - intros auth next ctx st info err H. unfold NewAuthMiddleware.
    rewrite H. reflexivity.
Qed.

End AuthFacts.

Lemma auth_injects_requester_witness :
  exists ctx',
    NewAuthMiddleware DefaultAuthExtractor (fun _ => demo_next) demo_ctx
      (setUpdate demo_both_update demo_store)
    = demo_next (setUpdate demo_both_update demo_store)
    /\ Value ctx' (KeyString "uid") = AnyInt64 4
    /\ Value ctx' (KeyString "subject") = AnyString "bob"
    /\ Value ctx' (KeyString "trace") = AnyString "t-1".
Proof.
  destruct (auth_injects_requester (fun _ => demo_next) demo_ctx
              (setUpdate demo_both_update demo_store) (mkUser 4 "bob") eq_refl)
    as [ctx' [Hrun [Huid [Hsub [Hother _]]]]].
  exists ctx'. split; [exact Hrun|]. split; [exact Huid|]. split; [exact Hsub|].
  rewrite Hother by discriminate. reflexivity.
Defined.

Lemma auth_without_requester_or_on_error_witness :
  NewAuthMiddleware DefaultAuthExtractor (fun _ => demo_next) demo_ctx
    (setUpdate (mkUpdate None None) demo_store)
  = demo_next (setUpdate (mkUpdate None None) demo_store).
Proof.
  destruct (@auth_without_requester_or_on_error unit) as [H _].
  apply (H (fun _ => demo_next) demo_ctx (setUpdate (mkUpdate None None) demo_store)).
  - reflexivity.
  - left. reflexivity.
Defined.

(** ** Sending replies *)

Section SendingFacts.
Context {World : Type}.
Variable api : ApiCall -> World -> option error * World.
Variable Photo : Message -> list string.


(** [SendErrorMessage] with an error tells every origin the update
    has, a chat message for a [Message] and then a popup for a callback
    query, each carrying the error's text; a failure of the first call does
    not prevent the second.  With a nil error it does nothing. *)
Lemma SendErrorMessage_notifies_each_origin (update : Update) (w : World) :
  (forall err,
     exists w',
       SendErrorMessage api (Some update) (Some err) w
       = (Ret tt, w',
          (match UMessage update with
           | Some msg => [CallSendMessage
                            (mkSendMessageParams (ChatID (MChat msg)) (Error err) "" None)]
           | None => []
           end
           ++ match UCallbackQuery update with
              | Some q => [CallAnswerCallbackQuery
                             (mkAnswerCallbackQueryParams (CallbackID q) (Error err))]
              | None => []
              end)%list))
  /\ SendErrorMessage api (Some update) None w = (Ret tt, w, []).
Proof.
  split; [|reflexivity].
  intros err. unfold SendErrorMessage.
  destruct (UMessage update), (UCallbackQuery update); eexists; cbn;
    rewrite ?app_nil_r; reflexivity.
Qed.

End SendingFacts.


(** ** Binding a route map *)

Section RouteMapFacts.
Context {World : Type}.

Lemma bindOperation_effect (route : @RouteMap World) extra mws b operation b' info :
  extra operation = Some info ->
  bindOperation route extra mws b operation = Ret b' ->
  (exists added, handlers b' = (handlers b ++ added)%list
                 /\ map pattern added = operation_patterns info)
  /\ middlewares b' = middlewares b
  /\ errorHandler b' = errorHandler b
  /\ noRouteHandler b' = noRouteHandler b.
Proof.
  intros He. unfold bindOperation, operation_patterns. rewrite He.
  intros H; inversion H; subst; clear H.
  destruct (negb (Command info =? "")%string),
           (negb (CallbackQuery_ info =? "")%string);
    cbn [BindCommand BindCallback RegisterHandler handlers middlewares
         errorHandler noRouteHandler];
    (split; [|auto]).
  - eexists. rewrite <- app_assoc. split; reflexivity.
  - eexists. split; reflexivity.
  - eexists. split; reflexivity.
  - exists []. rewrite app_nil_r. split; reflexivity.
Qed.

(** X23.  [BindRoute] only appends: the handlers registered before are
    kept in place, the bot's middlewares and error handler are untouched,
    and the patterns added are, operation by operation in the order given,
    the canonical command (if the metadata names one) followed by the
    callback route with its [":"] (if it names one); an operation whose
    metadata names neither adds nothing. *)
Theorem BindRoute_only_appends (route : @RouteMap World) extra mws :
  forall operations (b b' : @Bot World),
  BindRoute b route extra operations mws = Ret b' ->
  (exists added,
     handlers b' = (handlers b ++ added)%list
     /\ map pattern added
        = flat_map (fun operation =>
                      match extra operation with
                      | Some info => operation_patterns info
                      | None => []
                      end) operations)
  /\ middlewares b' = middlewares b
  /\ errorHandler b' = errorHandler b.
Proof.
  induction operations as [|operation rest IH]; intros b b' H;
    cbn [BindRoute flat_map] in *.
  - inversion H; subst. split; [|auto].
    exists []. rewrite app_nil_r. split; reflexivity.
  - destruct (bindOperation route extra mws b operation) as [b1|why] eqn:Hb;
      cbn [res_bind] in H; [|discriminate].
    destruct (extra operation) as [info|] eqn:He;
      [|unfold bindOperation in Hb; rewrite He in Hb; discriminate].
    destruct (bindOperation_effect _ _ _ _ _ _ _ He Hb)
      as [[added1 [Hh Hp]] [Hm [Heh _]]].
    destruct (IH b1 b' H) as [[added2 [Hh' Hp']] [Hm' Heh']].
    split; [|split; congruence].
    exists (added1 ++ added2)%list. split.
    + rewrite Hh', Hh, <- app_assoc. reflexivity.
    + rewrite map_app, Hp, Hp'. reflexivity.
Qed.

End RouteMapFacts.

Lemma BindRoute_only_appends_witness :
  exists b' added,
    BindRoute (BindCommand demo_bot "help" demo_failing [])
              [("Start", demo_next); ("Menu", demo_next)]
              demo_extra ["Start"; "Noop"; "Menu"] []
    = Ret b'
    /\ handlers b'
       = (handlers (BindCommand demo_bot "help" demo_failing []) ++ added)%list
    /\ map pattern added = ["/start"; "menu:"].
Proof.
  eexists.
  destruct (BindRoute_only_appends
              [("Start", demo_next); ("Menu", demo_next)] demo_extra []
              ["Start"; "Noop"; "Menu"]
              (BindCommand demo_bot "help" demo_failing []) _ eq_refl)
    as [[added [Hh Hp]] _].
  exists added. split; [reflexivity|]. split; [exact Hh|exact Hp].
Defined.

(** ** The filter: what it leaves alone, and scans that cannot fault *)

Section FilterFrame.
Context {World : Type}.
Variable now : World -> Z.
Variable GetMe : World -> (error + User) * World.

(** X24.  Whatever path the filter takes, the store it returns or hands
    downstream holds the caption it received; and an update without a
    message, or with a message from a chat that is not a group, supergroup
    or channel, goes downstream in the very store that came in, so without
    any identity lookup. *)
Theorem filter_frame trim infoExpire (next : @HandlerFunc World) (st : Store World) :
  (exists st',
     option_map Caption (UMessage (update st'))
     = option_map Caption (UMessage (update st))
     /\ (NewGroupMessageFilterMiddleware now GetMe trim infoExpire next st = next st'
         \/ exists r, NewGroupMessageFilterMiddleware now GetMe trim infoExpire next st
                      = (r, st')))
  /\ (match UMessage (update st) with
      | None => True
      | Some m => isGroupChatType (ChatType (MChat m)) = false
      end ->
      NewGroupMessageFilterMiddleware now GetMe trim infoExpire next st = next st).
Proof.
  split; [apply filter_never_writes_caption|].
  unfold NewGroupMessageFilterMiddleware.
  destruct (UMessage (update st)) as [m|]; [|reflexivity].
  intros ->. reflexivity.
Qed.

End FilterFrame.

Lemma filter_frame_witness :
  NewGroupMessageFilterMiddleware demo_now demo_GetMe_down true 60 demo_next
    (setUpdate (text_update "@bot hello") demo_store)
  = demo_next (setUpdate (text_update "@bot hello") demo_store).
Proof.
  destruct (filter_frame demo_now demo_GetMe_down true 60 demo_next
              (setUpdate (text_update "@bot hello") demo_store)) as [_ H].
  apply H. reflexivity.
Defined.

Lemma matches_original_in_range text id username entity :
  len text < 2 ^ 63 ->
  entity_in_range text entity ->
  exists hit, matches_original text id username entity = Ret hit.
Proof.
  intros Hlen [Ho [Hl [Hhi Hu]]]. unfold matches_original, slice, add64.
  rewrite wrap64_small by lia.
  replace ((0 <=? Offset entity) && (Offset entity <=? Offset entity + Length entity)
           && (Offset entity + Length entity <=? len text)) with true
    by (symmetry; rewrite !Bool.andb_true_iff; repeat split; apply Z.leb_le; lia).
  cbn [res_bind].
  destruct (Type_ entity =? MessageEntityTypeMention)%string; [eauto|].
  destruct (Type_ entity =? MessageEntityTypeTextMention)%string eqn:Ht.
  - apply String.eqb_eq in Ht. destruct (EUser entity) as [u|]; [eauto|].
    exfalso. now apply Hu.
  - destruct (Type_ entity =? MessageEntityTypeBotCommand)%string; eauto.
Qed.

(** X25.  Without [trimMention] the scan cannot fault on well-placed
    entities: when every entity lies inside the text (and every
    [text_mention] carries its user) the scan returns, with the text
    unchanged. *)
Theorem checkMention_without_trim_is_safe text entities id username :
  len text < 2 ^ 63 ->
  Forall (entity_in_range text) entities ->
  exists isMention,
    checkMention text entities id username false = Ret (text, isMention).
Proof.
  intros Hlen Hall. rewrite checkMention_no_trim_per_spec.
  unfold checkMention_per_spec.
  assert (exists hits, scan_original text id username entities = Ret hits)
    as [hits ->].
  { induction Hall as [|entity rest Hin _ [hits IH]]; cbn [scan_original].
    - eauto.
    - destruct (matches_original_in_range text id username entity Hlen Hin)
        as [hit ->].
      rewrite IH. cbn [res_bind]. eauto. }
  cbn [res_bind]. eauto.
Qed.

Lemma checkMention_without_trim_is_safe_witness :
  exists isMention,
    checkMention "@bot @bot" [mention 0 4; mention 5 4] 7 "bot" false
    = Ret ("@bot @bot", isMention).
Proof.
  apply (checkMention_without_trim_is_safe "@bot @bot" [mention 0 4; mention 5 4] 7 "bot").
  - vm_compute. reflexivity.
  - repeat constructor; cbn; try lia; discriminate.
Defined.

Lemma broadcast_cancellation_needs_a_target_witness :
  fst (fst (BroadcastMessage demo_cancelled demo_limiterWait demo_send []
              [WithProgress demo_progress] 0%nat)) = None
  /\ BroadcastMessage demo_cancelled demo_limiterWait demo_send ["a"; "b"]
       [WithProgress demo_progress] 0%nat
     = (Some (ErrPlain "context canceled"), 0%nat, []).
Proof.
  destruct (broadcast_cancellation_needs_a_target
              demo_cancelled demo_limiterWait demo_send) as [Hempty Hcancel].
  split.
  - exact (proj1 (Hempty [WithProgress demo_progress] 0%nat)).
  - exact (Hcancel "a" ["b"] [WithProgress demo_progress] 0%nat
             (ErrPlain "context canceled") eq_refl).
Defined.
